(** * Chirp social feed: the form and feed state of [Auth.jsx] and
      [PostFeed.jsx], embedded as state transformers.

    Every React component is a record of its [useState] cells, and a
    handler is a computation in a small state / exception / output monad,
    so that [try], [catch] and [finally] read as in the source.  The
    hosted backend is not part of the program: what it answers to an
    [await] is an input.  The handlers of the feed, which run interleaved
    with user events and notifications, are cut at their [await]s, one
    computation per synchronous stretch; [handleAuth], which runs behind a
    disabled form, is one computation from click to [finally]. *)

From Stdlib Require Import List Bool Arith ZArith NArith Lia String Ascii.
Import ListNotations.

Set Implicit Arguments.

(** ** JavaScript strings *)

Module JsString.

(** A string is its sequence of UTF-16 code units. *)
Definition t := list N.

Definition lit (s : string) : t :=
  map N_of_ascii (list_ascii_of_string s).

Definition eqb (a b : t) : bool :=
  if list_eq_dec N.eq_dec a b then true else false.

(** [!s] is true of the empty string only. *)
Definition truthy (s : t) : bool :=
  match s with [] => false | _ :: _ => true end.

(** [a || b] on strings. *)
Definition or_else (a b : t) : t := if truthy a then a else b.

(** WhiteSpace and LineTerminator code points, the set [trim] strips. *)
Definition is_space (c : N) : bool :=
  ((9 <=? c) && (c <=? 13) || (c =? 32) || (c =? 160) || (c =? 5760)
   || (8192 <=? c) && (c <=? 8202) || (c =? 8232) || (c =? 8233)
   || (c =? 8239) || (c =? 8287) || (c =? 12288) || (c =? 65279))%N.

Fixpoint trimStart (s : t) : t :=
  match s with
  | c :: r => if is_space c then trimStart r else s
  | [] => []
  end.

Definition trimEnd (s : t) : t := rev (trimStart (rev s)).

Definition trim (s : t) : t := trimEnd (trimStart s).

Definition blank (s : t) : bool := forallb is_space s.

Fixpoint startsWith (p s : t) : bool :=
  match p, s with
  | [], _ => true
  | a :: p', b :: s' => (a =? b)%N && startsWith p' s'
  | _ :: _, [] => false
  end.

(** [s.includes(p)] *)
Fixpoint includes (p s : t) : bool :=
  startsWith p s ||
  match s with
  | [] => false
  | _ :: s' => includes p s'
  end.

(** [s.split(sep)[0]] for a one-unit separator: what stands before the
    first [sep], the whole string when there is none. *)
Fixpoint split_head (sep : N) (s : t) : t :=
  match s with
  | [] => []
  | c :: r => if (c =? sep)%N then [] else c :: split_head sep r
  end.

(** [s.slice(0, n)] *)
Definition slice0 (n : nat) (s : t) : t := firstn n s.

Definition at_sign : N := 64%N.

End JsString.

Definition js_string : Type := JsString.t.
Definition lit : string -> js_string := JsString.lit.

(** ** Values that cross the wire *)

(** A primary-key value as the client sees it, compared with [===]: a
    number equals a number, a string a string, never one the other. *)
Module Key.
Inductive t := Num (n : Z) | Str (s : js_string).
Definition strict_eq (a b : t) : bool :=
  match a, b with
  | Num x, Num y => (x =? y)%Z
  | Str x, Str y => JsString.eqb x y
  | _, _ => false
  end.
End Key.

(** What [throw] carries: an object with a [message]. *)
Module JsError.
Record t := { message : js_string }.
End JsError.
Definition js_error : Type := JsError.t.
Definition Error (msg : string) : js_error := {| JsError.message := lit msg |}.

(** The [user] object of the auth service. *)
Module User.
Record t := { id : js_string; email : option js_string }.
End User.

(** A [profiles] row as the client writes it.  [avatar_url] is [None]
    when the object literal has no such key and [Some None] for [null]. *)
Module Profile.
Record t := {
  id : js_string;
  username : js_string;
  avatar_url : option (option js_string)
}.
(** The [profiles ( username, avatar_url )] embedding of a selected post. *)
Record embed := { embed_username : option js_string;
                  embed_avatar_url : option js_string }.
End Profile.

(** A [posts] row.  [created_at] is the instant the column denotes, in
    microseconds since the epoch; the client never computes with it. *)
Module Post.
Record t := {
  id : Key.t;
  content : js_string;
  created_at : Z;
  user_id : js_string;
  profiles : option Profile.embed
}.
End Post.

(** [.from('posts').select(...).order(column, { ascending })] *)
Module Query.
Record t := {
  from : js_string;
  columns : list js_string;
  embedded : list js_string;
  order : option (js_string * bool)
}.
End Query.

(** The payload of a [postgres_changes] notification.  The handler reads
    [new] on INSERT and UPDATE and [old.id] on DELETE, nothing else. *)
Module Payload.
Record t := { eventType : js_string; new : Post.t; old : Post.t }.
End Payload.

(** A settled promise. *)
Inductive settled (A : Type) : Type :=
| Fulfilled (v : A)
| Rejected (e : js_error).
Arguments Rejected {A} e.

(** [{ data, error }] of [auth.signInWithPassword] and [auth.signUp];
    [data_user] is [data.user]. *)
Module AuthResult.
Record t := { data_user : option User.t; error : option js_error }.
End AuthResult.

(** [{ data: { user }, error }] of [auth.getUser]. *)
Module GetUserResult.
Record t := { user : option User.t; error : option js_error }.
End GetUserResult.

(** [{ error }] of a write that selects nothing back. *)
Module WriteResult.
Record t := { error : option js_error }.
End WriteResult.

(** The [data] of a select, which the client inspects with a truth test
    and [Array.isArray]. *)
Module Data.
Inductive t :=
| Undefined
| Null
| Bool (b : bool)
| Number (n : Z)
| String (s : js_string)
| Object (row : Post.t)
| Array (rows : list Post.t).
Definition truthy (d : t) : bool :=
  match d with
  | Undefined | Null => false
  | Bool b => b
  | Number n => negb (n =? 0)%Z
  | String s => JsString.truthy s
  | Object _ | Array _ => true
  end.
Definition isArray (d : t) : bool :=
  match d with Array _ => true | _ => false end.
(** The elements of an array; read under [isArray] only. *)
Definition elements (d : t) : list Post.t :=
  match d with Array rows => rows | _ => [] end.
End Data.

Module SelectResult.
Record t := { data : Data.t; error : option js_error }.
End SelectResult.

(** [{ data, error }] of [.insert(...).select(...).single()]: the row and
    no error, or an error and no row. *)
Module SingleResult.
Inductive t :=
| Row (data : Post.t)
| Failure (error : js_error).
End SingleResult.

(** ** What a handler does to the outside *)

Inductive request :=
| SignInWithPassword (email password : js_string)
| SignUp (email password emailRedirectTo username : js_string)
| GetUser
| UpsertProfile (row : Profile.t) (onConflict : js_string)
| SelectPosts (q : Query.t)
| InsertPost (content user_id : js_string) (returning : bool).

Inductive effect :=
| PreventDefault
| Console_log (label : js_string)
| Console_error (label : js_string) (arg : option js_error)
| Call (r : request).

Definition is_insert (e : effect) : bool :=
  match e with Call (InsertPost _ _ _) => true | _ => false end.

Definition is_console_error (e : effect) : bool :=
  match e with Console_error _ _ => true | _ => false end.

(** ** Synchronous stretches of a handler *)

Inductive completion (A : Type) : Type :=
| Normal (a : A)
| Throw (e : js_error).
Arguments Throw {A} e.

Section Monad.
Variable St : Type.

Definition M (A : Type) : Type := St -> completion A * St * list effect.

Definition ret {A} (a : A) : M A := fun s => (Normal a, s, []).

Definition bind {A B} (m : M A) (k : A -> M B) : M B :=
  fun s =>
    match m s with
    | (Normal a, s1, o1) =>
        match k a s1 with (c, s2, o2) => (c, s2, o1 ++ o2) end
    | (Throw e, s1, o1) => (Throw e, s1, o1)
    end.

Definition throw {A} (e : js_error) : M A := fun s => (Throw e, s, []).

Definition perform (e : effect) : M unit := fun s => (Normal tt, s, [e]).

Definition get : M St := fun s => (Normal s, s, []).

Definition modify (f : St -> St) : M unit := fun s => (Normal tt, f s, []).

(** [try { body } catch (e) { handler(e) }] *)
Definition try_catch {A} (body : M A) (handler : js_error -> M A) : M A :=
  fun s =>
    match body s with
    | (Normal a, s1, o1) => (Normal a, s1, o1)
    | (Throw e, s1, o1) =>
        match handler e s1 with (c, s2, o2) => (c, s2, o1 ++ o2) end
    end.

(** [try { body } finally { fin }] *)
Definition try_finally {A} (body : M A) (fin : M unit) : M A :=
  fun s =>
    match body s with
    | (c, s1, o1) =>
        match fin s1 with
        | (Normal _, s2, o2) => (c, s2, o1 ++ o2)
        | (Throw e, s2, o2) => (Throw e, s2, o1 ++ o2)
        end
    end.

(** The value of an awaited promise once it has settled. *)
Definition await {A} (p : settled A) : M A :=
  match p with
  | Fulfilled v => ret v
  | Rejected e => throw e
  end.

(** [if (e) throw e] *)
Definition throw_if (e : option js_error) : M unit :=
  match e with
  | Some x => throw x
  | None => ret tt
  end.

Definition when (b : bool) (m : M unit) : M unit :=
  if b then m else ret tt.

Definition console_error (label : string) (arg : option js_error) : M unit :=
  perform (Console_error (lit label) arg).

Definition call (r : request) : M unit := perform (Call r).

Definition final {A} (r : completion A * St * list effect) : St := snd (fst r).
Definition output {A} (r : completion A * St * list effect) : list effect := snd r.
Definition outcome {A} (r : completion A * St * list effect) : completion A :=
  fst (fst r).

End Monad.

Arguments ret {St A} a.
Arguments throw {St A} e.
Arguments perform {St} e.
Arguments get {St}.
Arguments throw_if {St} e.
Arguments await {St A} p.
Arguments console_error {St} label arg.
Arguments call {St} r.

Declare Scope js_scope.
Delimit Scope js_scope with js.
Notation "x <- m ;; k" := (bind m (fun x => k))
  (at level 61, m at next level, right associativity) : js_scope.
Notation "m ;; k" := (bind m (fun _ => k))
  (at level 61, right associativity) : js_scope.
Open Scope js_scope.

(** [email.split('@')[0] || `user_${id.slice(0, 8)}`] *)
Definition derived_username (email : option js_string) (id : js_string) : js_string :=
  JsString.or_else
    (match email with
     | Some e => JsString.split_head JsString.at_sign e
     | None => []
     end)
    (lit "user_" ++ JsString.slice0 8 id).

(** ** [Auth]: the sign-in / sign-up form *)

Module Auth.

Record t := {
  email : js_string;
  password : js_string;
  loading : bool;
  error : option js_string;
  message : option js_string
}.

Definition initial : t :=
  {| email := []; password := []; loading := false;
     error := None; message := None |}.

Definition setLoading (b : bool) : M t unit :=
  modify (fun s => {| email := email s; password := password s; loading := b;
                      error := error s; message := message s |}).

Definition setError (e : option js_string) : M t unit :=
  modify (fun s => {| email := email s; password := password s;
                      loading := loading s; error := e; message := message s |}).

Definition setMessage (m : option js_string) : M t unit :=
  modify (fun s => {| email := email s; password := password s;
                      loading := loading s; error := error s; message := m |}).

Inductive auth_type := LOGIN | SIGNUP.

Definition verification_sent : js_string :=
  lit "Verification sent to email! Please check your inbox.".

Definition rls_marker : js_string := lit "row-level security policy".

(** [data.user.id]: a TypeError when [data.user] is null. *)
Definition user_id_of (u : option User.t) : M t js_string :=
  match u with
  | Some x => ret (User.id x)
  | None => throw (Error "Cannot read properties of null (reading 'id')")
  end.

(** [handleAuth(type)], run to its end.  [origin] is
    [window.location.origin]; [auth_reply] settles the sign-in or sign-up
    promise and [upsert_reply] the profile upsert, when the run gets
    there. *)
Definition handleAuth (origin : js_string) (type : auth_type)
    (auth_reply : settled AuthResult.t)
    (upsert_reply : settled WriteResult.t) : M t unit :=
  try_finally
    (try_catch
       (setLoading true ;;
        setError None ;;
        setMessage None ;;
        s <- get ;;
        r <- match type with
             | LOGIN =>
                 call (SignInWithPassword (email s) (password s)) ;;
                 await auth_reply
             | SIGNUP =>
                 call (SignUp (email s) (password s)
                         (origin ++ lit "/auth/callback")
                         (JsString.split_head JsString.at_sign (email s))) ;;
                 await auth_reply
             end ;;
        throw_if (AuthResult.error r) ;;
        match type with
        | SIGNUP =>
            setMessage (Some verification_sent) ;;
            try_catch
              (id <- user_id_of (AuthResult.data_user r) ;;
               call (UpsertProfile
                       {| Profile.id := id;
                          Profile.username := derived_username (Some (email s)) id;
                          Profile.avatar_url := None |}
                       (lit "id")) ;;
               _ <- await upsert_reply ;;
               ret tt)
              (fun profileError =>
                 console_error "Profile creation failed (non-critical):"
                   (Some profileError))
        | LOGIN => ret tt
        end ;;
        match type, AuthResult.data_user r with
        | LOGIN, Some u =>
            try_catch
              (call (UpsertProfile
                       {| Profile.id := User.id u;
                          Profile.username :=
                            derived_username (User.email u) (User.id u);
                          Profile.avatar_url := None |}
                       (lit "id")) ;;
               _ <- await upsert_reply ;;
               ret tt)
              (fun profileError =>
                 console_error "Profile update failed:" (Some profileError))
        | _, _ => ret tt
        end)
       (fun error =>
          when (negb (JsString.includes rls_marker (JsError.message error)))
            (setError (Some (JsString.or_else (JsError.message error)
                               (lit "Authentication failed")))) ;;
          console_error "Auth error:" (Some error)))
    (setLoading false).

(** What the rendered form shows: [{error && ...}] and [{message && ...}]
    draw a box for a truthy string only. *)
Definition shown (m : option js_string) : option js_string :=
  match m with
  | Some x => if JsString.truthy x then Some x else None
  | None => None
  end.

End Auth.

(** ** [PostFeed]: the feed view *)

Module PostFeed.

Record t := {
  posts : list Post.t;
  user : option User.t;
  newPostContent : js_string;
  isPosting : bool;
  loading : bool;
  error : option js_string
}.

(** The [useState] initial values. *)
Definition initial : t :=
  {| posts := []; user := None; newPostContent := []; isPosting := false;
     loading := true; error := None |}.

(** [setPosts] takes an updater, [setPosts(data)] being the constant one. *)
Definition setPosts (f : list Post.t -> list Post.t) : M t unit :=
  modify (fun s => {| posts := f (posts s); user := user s;
                      newPostContent := newPostContent s;
                      isPosting := isPosting s; loading := loading s;
                      error := error s |}).

Definition setUser (u : option User.t) : M t unit :=
  modify (fun s => {| posts := posts s; user := u;
                      newPostContent := newPostContent s;
                      isPosting := isPosting s; loading := loading s;
                      error := error s |}).

Definition setNewPostContent (c : js_string) : M t unit :=
  modify (fun s => {| posts := posts s; user := user s; newPostContent := c;
                      isPosting := isPosting s; loading := loading s;
                      error := error s |}).

Definition setIsPosting (b : bool) : M t unit :=
  modify (fun s => {| posts := posts s; user := user s;
                      newPostContent := newPostContent s; isPosting := b;
                      loading := loading s; error := error s |}).

Definition setLoading (b : bool) : M t unit :=
  modify (fun s => {| posts := posts s; user := user s;
                      newPostContent := newPostContent s;
                      isPosting := isPosting s; loading := b;
                      error := error s |}).

Definition setError (e : option js_string) : M t unit :=
  modify (fun s => {| posts := posts s; user := user s;
                      newPostContent := newPostContent s;
                      isPosting := isPosting s; loading := loading s;
                      error := e |}).

(** The select [fetchPosts] sends. *)
Definition posts_query : Query.t :=
  {| Query.from := lit "posts";
     Query.columns := [lit "id"; lit "content"; lit "created_at"; lit "user_id"];
     Query.embedded := [lit "username"; lit "avatar_url"];
     Query.order := Some (lit "created_at", false) |}.

Definition reload_prompt : js_string :=
  lit "Failed to load posts. Please refresh the page.".

(** [fetchPosts], up to its [await]. *)
Definition fetchPosts_call : M t unit :=
  setLoading true ;;
  setError None ;;
  call (SelectPosts posts_query).

(** [fetchPosts], from the settled select to the end. *)
Definition fetchPosts_settled (reply : settled SelectResult.t) : M t unit :=
  try_finally
    (try_catch
       (r <- await reply ;;
        throw_if (SelectResult.error r) ;;
        let data := SelectResult.data r in
        if Data.truthy data && Data.isArray data
        then setPosts (fun _ => Data.elements data)
        else throw (Error "Invalid data format received"))
       (fun err =>
          console_error "Failed to fetch posts:" (Some err) ;;
          setError (Some reload_prompt)))
    (setLoading false).

(** [user?.id] as a truth value. *)
Definition user_id_truthy (u : option User.t) : bool :=
  match u with
  | Some x => JsString.truthy (User.id x)
  | None => false
  end.

(** [user.id], read past the [user?.id] guard only. *)
Definition id_of (u : option User.t) : js_string :=
  match u with Some x => User.id x | None => [] end.

Definition create_failed : js_string :=
  lit "Failed to create post. Please try again.".

(** [handleSubmitPost(e)], up to its [await]. *)
Definition handleSubmitPost_call : M t unit :=
  perform PreventDefault ;;
  s <- get ;;
  if negb (JsString.truthy (JsString.trim (newPostContent s)))
     || negb (user_id_truthy (user s))
  then ret tt
  else
    setIsPosting true ;;
    setError None ;;
    call (InsertPost (newPostContent s) (id_of (user s)) true).

(** [handleSubmitPost], from the settled insert to the end. *)
Definition handleSubmitPost_settled (reply : settled SingleResult.t) : M t unit :=
  try_finally
    (try_catch
       (r <- await reply ;;
        match r with
        | SingleResult.Failure insertError => throw insertError
        | SingleResult.Row newPost =>
            setPosts (fun prevPosts => newPost :: prevPosts) ;;
            setNewPostContent []
        end)
       (fun err =>
          console_error "Failed to create post:" (Some err) ;;
          setError (Some (JsString.or_else (JsError.message err) create_failed))))
    (setIsPosting false).

(** [initializeUser], up to [auth.getUser()]. *)
Definition initializeUser_call : M t unit := call GetUser.

(** [initializeUser], from the settled [getUser] to the upsert. *)
Definition initializeUser_gotUser (reply : settled GetUserResult.t) : M t unit :=
  r <- await reply ;;
  match GetUserResult.error r, GetUserResult.user r with
  | None, Some u =>
      setUser (Some u) ;;
      call (UpsertProfile
              {| Profile.id := User.id u;
                 Profile.username := derived_username (User.email u) (User.id u);
                 Profile.avatar_url := Some None |}
              (lit "id"))
  | error, _ => console_error "User not authenticated:" error
  end.

(** [initializeUser], from the settled upsert to the end. *)
Definition initializeUser_upserted (reply : settled WriteResult.t) : M t unit :=
  try_catch
    (r <- await reply ;;
     throw_if (WriteResult.error r))
    (fun err => console_error "Profile initialization error:" (Some err)).

Definition INSERT : js_string := lit "INSERT".
Definition DELETE : js_string := lit "DELETE".
Definition UPDATE : js_string := lit "UPDATE".

(** The [postgres_changes] callback. *)
Definition on_postgres_changes (payload : Payload.t) : M t unit :=
  perform (Console_log (lit "Realtime update:")) ;;
  if JsString.eqb (Payload.eventType payload) INSERT then
    setPosts (fun prev => Payload.new payload :: prev)
  else if JsString.eqb (Payload.eventType payload) DELETE then
    setPosts (fun prev =>
      filter (fun post =>
                negb (Key.strict_eq (Post.id post)
                        (Post.id (Payload.old payload)))) prev)
  else if JsString.eqb (Payload.eventType payload) UPDATE then
    setPosts (fun prev =>
      map (fun post =>
             if Key.strict_eq (Post.id post) (Post.id (Payload.new payload))
             then Payload.new payload else post) prev)
  else fetchPosts_call.

Definition sample_content : js_string := lit "Check out my first post!".
Definition sample_failed : js_string := lit "Failed to create sample post".

(** [user.id] on a [user] that may be null. *)
Definition user_id (u : option User.t) : M t js_string :=
  match u with
  | Some x => ret (User.id x)
  | None => throw (Error "Cannot read properties of null (reading 'id')")
  end.

(** The "Create Sample Post" click, up to the insert. *)
Definition sample_click : M t unit :=
  try_catch
    (s <- get ;;
     id <- user_id (user s) ;;
     call (InsertPost sample_content id false))
    (fun _ => setError (Some sample_failed)).

(** The click handler, from the settled insert to the [fetchPosts] call. *)
Definition sample_inserted (reply : settled WriteResult.t) : M t unit :=
  try_catch
    (_ <- await reply ;;
     fetchPosts_call)
    (fun _ => setError (Some sample_failed)).

(** *** What the render lets the user do *)

Definition spinner (s : t) : bool :=
  loading s && (List.length (posts s) =? 0)%nat.

Definition user_truthy (s : t) : bool :=
  match user s with Some _ => true | None => false end.

Definition form_shown (s : t) : bool := negb (spinner s) && user_truthy s.

Definition textarea_disabled (s : t) : bool := isPosting s.

Definition submit_disabled (s : t) : bool :=
  isPosting s || negb (JsString.truthy (JsString.trim (newPostContent s))).

Definition sample_shown (s : t) : bool :=
  negb (spinner s) && negb (0 <? List.length (posts s))%nat && user_truthy s.

(** *** The mounted component and its promises *)

Inductive promise := Submission | SampleInsert | Select | UserLookup | Upsert.

Definition promise_eqb (a b : promise) : bool :=
  match a, b with
  | Submission, Submission | SampleInsert, SampleInsert | Select, Select
  | UserLookup, UserLookup | Upsert, Upsert => true
  | _, _ => false
  end.

(** The promise an effect leaves behind.  The submission's insert selects
    its row back, the sample's does not. *)
Definition promise_of (e : effect) : list promise :=
  match e with
  | Call (InsertPost _ _ true) => [Submission]
  | Call (InsertPost _ _ false) => [SampleInsert]
  | Call (SelectPosts _) => [Select]
  | Call GetUser => [UserLookup]
  | Call (UpsertProfile _ _) => [Upsert]
  | _ => []
  end.

Record app := { state : t; pending : list promise }.

Fixpoint take_out (p : promise) (l : list promise) : option (list promise) :=
  match l with
  | [] => None
  | q :: r =>
      if promise_eqb p q then Some r
      else match take_out p r with
           | Some r' => Some (q :: r')
           | None => None
           end
  end.

Definition in_flight (p : promise) (a : app) : nat :=
  List.length (filter (promise_eqb p) (pending a)).

(** One handler stretch, run on the mounted component. *)
Definition dispatch {A} (m : M t A) (s : t) (waiting : list promise) : app :=
  let r := m s in
  {| state := final r; pending := waiting ++ flat_map promise_of (output r) |}.

Definition settle {A} (p : promise) (m : M t A) (a : app) : option app :=
  match take_out p (pending a) with
  | Some rest => Some (dispatch m (state a) rest)
  | None => None
  end.

Inductive event :=
| Change (value : js_string)
| Submit
| SampleClick
| Notify (payload : Payload.t)
| InsertSettled (reply : settled SingleResult.t)
| SelectSettled (reply : settled SelectResult.t)
| SampleSettled (reply : settled WriteResult.t)
| GetUserSettled (reply : settled GetUserResult.t)
| UpsertSettled (reply : settled WriteResult.t).

(** A user event reaches its handler only through an element that is
    rendered and not disabled; a notification only while the channel is
    subscribed; a settlement only for a promise that is pending. *)
Definition step (e : event) (a : app) : option app :=
  let s := state a in
  match e with
  | Change value =>
      if form_shown s && negb (textarea_disabled s)
      then Some (dispatch (setNewPostContent value) s (pending a))
      else None
  | Submit =>
      if form_shown s && negb (submit_disabled s)
      then Some (dispatch handleSubmitPost_call s (pending a))
      else None
  | SampleClick =>
      if sample_shown s
      then Some (dispatch sample_click s (pending a))
      else None
  | Notify payload =>
      if user_id_truthy (user s)
      then Some (dispatch (on_postgres_changes payload) s (pending a))
      else None
  | InsertSettled reply => settle Submission (handleSubmitPost_settled reply) a
  | SelectSettled reply => settle Select (fetchPosts_settled reply) a
  | SampleSettled reply => settle SampleInsert (sample_inserted reply) a
  | GetUserSettled reply => settle UserLookup (initializeUser_gotUser reply) a
  | UpsertSettled reply => settle Upsert (initializeUser_upserted reply) a
  end.

(** The three mount effects: [initializeUser()], the subscription (none
    yet, [user] is null) and [fetchPosts()]. *)
Definition mounted : app :=
  dispatch (initializeUser_call ;; fetchPosts_call) initial [].

Fixpoint run (es : list event) (a : app) : option app :=
  match es with
  | [] => Some a
  | e :: rest =>
      match step e a with
      | Some a' => run rest a'
      | None => None
      end
  end.

(** [created_at] never increases down the list. *)
Fixpoint newest_first (rows : list Post.t) : bool :=
  match rows with
  | a :: (b :: _) as rest =>
      (Post.created_at b <=? Post.created_at a)%Z && newest_first rest
  | _ => true
  end.

End PostFeed.

(** ** The hosted store, as far as the claims need it *)

Module Store.

(** What the store owes for a select that asks for
    [order('created_at', { ascending: false })]. *)
Definition honours_order (q : Query.t) (r : SelectResult.t) : Prop :=
  Query.order q = Some (lit "created_at", false) ->
  forall rows, SelectResult.data r = Data.Array rows ->
  PostFeed.newest_first rows = true.

(** Modelled from the spec: a stored [profiles] row, {id (= User.id),
    username, avatar_url}; the table is not in the repository. *)
Record row := {
  id : js_string;
  username : js_string;
  avatar_url : option js_string
}.

Definition table : Type := list row.

Definition has_id (i : js_string) (r : row) : bool := JsString.eqb (id r) i.

(** Modelled from the spec: the row an upsert adds; a column the client
    leaves out is null. *)
Definition inserted (p : Profile.t) : row :=
  {| id := Profile.id p; username := Profile.username p;
     avatar_url := match Profile.avatar_url p with
                   | Some v => v
                   | None => None
                   end |}.

(** Modelled from the spec: the row an upsert updates; a column the
    client leaves out keeps its value, the key stays. *)
Definition updated (p : Profile.t) (r : row) : row :=
  {| id := id r; username := Profile.username p;
     avatar_url := match Profile.avatar_url p with
                   | Some v => v
                   | None => avatar_url r
                   end |}.

(** Modelled from the spec: the store's [upsert] on [profiles], which is
    not in the repository.  The spec calls it an "insert-or-update keyed
    on id": a row whose [id] is already stored is updated in place,
    otherwise the row is added. *)
Definition upsert (p : Profile.t) (tbl : table) : table :=
  if existsb (has_id (Profile.id p)) tbl
  then map (fun r => if has_id (Profile.id p) r then updated p r else r) tbl
  else tbl ++ [inserted p].

(** Modelled from the spec: the store serving the writes a handler
    sends, in order.  Only [upsert(..., { onConflict: 'id' })] on
    [profiles] is given a meaning; the client sends no other. *)
Definition serve (e : effect) (tbl : table) : table :=
  match e with
  | Call (UpsertProfile p onConflict) =>
      if JsString.eqb onConflict (lit "id") then upsert p tbl else tbl
  | _ => tbl
  end.

Definition serve_all (out : list effect) (tbl : table) : table :=
  fold_left (fun t e => serve e t) out tbl.

Definition rows_of (i : js_string) (tbl : table) : nat :=
  List.length (filter (has_id i) tbl).

(** The key constraint of [profiles]. *)
Definition unique_ids (tbl : table) : Prop := NoDup (map id tbl).

End Store.

(** ** Vocabulary of the statements, and sample values *)

(** A sign-in or sign-up that the auth service refuses with [e]: the
    promise rejects, or it resolves with [e] in [error]. *)
Definition refused (reply : settled AuthResult.t) (e : js_error) : Prop :=
  reply = Rejected e \/
  exists u, reply = Fulfilled {| AuthResult.data_user := u;
                                 AuthResult.error := Some e |}.

Definition rls_refusal : js_error :=
  Error "new row violates row-level security policy for table profiles".

Definition ada : User.t :=
  {| User.id := lit "3f2b8c1e-user"; User.email := Some (lit "a@b.com") |}.

Definition signing_up : Auth.t :=
  {| Auth.email := lit "a@b.com"; Auth.password := lit "secret1";
     Auth.loading := false; Auth.error := None; Auth.message := None |}.

Definition upsert_refused : settled WriteResult.t :=
  Fulfilled {| WriteResult.error := Some rls_refusal |}.

(** Rows of a list that carry the key [k]. *)
Definition count_id (k : Key.t) (rows : list Post.t) : nat :=
  List.length (filter (fun p => Key.strict_eq (Post.id p) k) rows).

Definition refetches (out : list effect) : bool :=
  existsb (fun e => match e with Call (SelectPosts _) => true | _ => false end)
    out.

Definition spaces_only : PostFeed.t :=
  {| PostFeed.posts := []; PostFeed.user := Some ada;
     PostFeed.newPostContent := lit "   "; PostFeed.isPosting := false;
     PostFeed.loading := false; PostFeed.error := None |}.

(** A select that [fetchPosts] takes as failed: the promise rejects, the
    reply carries an error, or its data fails the array test. *)
Definition select_failed (reply : settled SelectResult.t) : bool :=
  match reply with
  | Rejected _ => true
  | Fulfilled r =>
      match SelectResult.error r with
      | Some _ => true
      | None => negb (Data.isArray (SelectResult.data r))
      end
  end.

Definition post (n : Z) (text : string) (at_ : Z) : Post.t :=
  {| Post.id := Key.Num n; Post.content := lit text; Post.created_at := at_;
     Post.user_id := User.id ada; Post.profiles := None |}.

Definition two_rows : list Post.t := [post 2 "second" 200; post 1 "first" 100].

(** A stretch that neither writes the busy flag nor sends a submission. *)
Definition quiet {A} (m : M PostFeed.t A) : Prop :=
  forall s,
    PostFeed.isPosting (final (m s)) = PostFeed.isPosting s /\
    filter (PostFeed.promise_eqb PostFeed.Submission)
      (flat_map PostFeed.promise_of (output (m s))) = [].

(** The busy flag counts the submissions that have not settled. *)
Definition flag_counts (a : PostFeed.app) : Prop :=
  PostFeed.in_flight PostFeed.Submission a =
  if PostFeed.isPosting (PostFeed.state a) then 1 else 0.

Definition busy : PostFeed.t :=
  {| PostFeed.posts := []; PostFeed.user := Some ada;
     PostFeed.newPostContent := lit "hello"; PostFeed.isPosting := true;
     PostFeed.loading := false; PostFeed.error := None |}.

Definition ada_session : list PostFeed.event :=
  [PostFeed.GetUserSettled
     (Fulfilled {| GetUserResult.user := Some ada;
                   GetUserResult.error := None |});
   PostFeed.SelectSettled
     (Fulfilled {| SelectResult.data := Data.Array [];
                   SelectResult.error := None |});
   PostFeed.Change (lit "hello");
   PostFeed.Submit].

Definition ada_posting : PostFeed.app :=
  {| PostFeed.state := busy;
     PostFeed.pending := [PostFeed.Upsert; PostFeed.Submission] |}.

(** What the three places that upsert a profile for [u] send: the feed's
    [initializeUser], and [handleAuth] after an accepted sign-in or
    sign-up. *)
Definition upsert_sites (origin : js_string) (u : User.t)
    (reply : settled WriteResult.t) (a : Auth.t) (s : PostFeed.t)
  : list (list effect) :=
  [ output (PostFeed.initializeUser_gotUser
              (Fulfilled {| GetUserResult.user := Some u;
                            GetUserResult.error := None |}) s);
    output (Auth.handleAuth origin Auth.LOGIN
              (Fulfilled {| AuthResult.data_user := Some u;
                            AuthResult.error := None |}) reply a);
    output (Auth.handleAuth origin Auth.SIGNUP
              (Fulfilled {| AuthResult.data_user := Some u;
                            AuthResult.error := None |}) reply a) ].

(** ** [handleAuth] cut at its awaits, and the form around it *)

Module AuthForm.

Definition setEmail (v : js_string) : M Auth.t unit :=
  modify (fun s => {| Auth.email := v; Auth.password := Auth.password s;
                      Auth.loading := Auth.loading s;
                      Auth.error := Auth.error s;
                      Auth.message := Auth.message s |}).

Definition setPassword (v : js_string) : M Auth.t unit :=
  modify (fun s => {| Auth.email := Auth.email s; Auth.password := v;
                      Auth.loading := Auth.loading s;
                      Auth.error := Auth.error s;
                      Auth.message := Auth.message s |}).

(** [handleAuth(type)], up to the sign-in or sign-up request. *)
Definition handleAuth_call (origin : js_string) (type : Auth.auth_type)
  : M Auth.t unit :=
  Auth.setLoading true ;;
  Auth.setError None ;;
  Auth.setMessage None ;;
  s <- get ;;
  match type with
  | Auth.LOGIN => call (SignInWithPassword (Auth.email s) (Auth.password s))
  | Auth.SIGNUP =>
      call (SignUp (Auth.email s) (Auth.password s)
              (origin ++ lit "/auth/callback")
              (JsString.split_head JsString.at_sign (Auth.email s)))
  end.

(** Where a stretch stops: at the end of the function, or at an [await]
    inside the outer [try]. *)
Inductive progress := Finished | Suspended.

(** The outer [catch] block. *)
Definition on_catch (error : js_error) : M Auth.t unit :=
  when (negb (JsString.includes Auth.rls_marker (JsError.message error)))
    (Auth.setError (Some (JsString.or_else (JsError.message error)
                            (lit "Authentication failed")))) ;;
  console_error "Auth error:" (Some error).

(** A stretch of the outer [try]: what it throws goes to the [catch], and
    the [finally] runs unless the stretch stops at an [await]. *)
Definition in_outer_try (body : M Auth.t progress) : M Auth.t progress :=
  fun s =>
    let r := try_catch body (fun error => on_catch error ;; ret Finished) s in
    match outcome r with
    | Normal Suspended => r
    | _ => try_finally (fun _ => r) (Auth.setLoading false) s
    end.

(** From the settled sign-in or sign-up to the profile upsert, or to the
    end.  [email] is the [email] of the render the click came from. *)
Definition handleAuth_authSettled (type : Auth.auth_type) (email : js_string)
    (reply : settled AuthResult.t) : M Auth.t progress :=
  in_outer_try
    (r <- await reply ;;
     throw_if (AuthResult.error r) ;;
     match type with
     | Auth.SIGNUP =>
         Auth.setMessage (Some Auth.verification_sent) ;;
         try_catch
           (id <- Auth.user_id_of (AuthResult.data_user r) ;;
            call (UpsertProfile
                    {| Profile.id := id;
                       Profile.username := derived_username (Some email) id;
                       Profile.avatar_url := None |}
                    (lit "id")) ;;
            ret Suspended)
           (fun profileError =>
              console_error "Profile creation failed (non-critical):"
                (Some profileError) ;;
              ret Finished)
     | Auth.LOGIN =>
         match AuthResult.data_user r with
         | Some u =>
             call (UpsertProfile
                     {| Profile.id := User.id u;
                        Profile.username :=
                          derived_username (User.email u) (User.id u);
                        Profile.avatar_url := None |}
                     (lit "id")) ;;
             ret Suspended
         | None => ret Finished
         end
     end).

(** From the settled upsert to the end. *)
Definition handleAuth_upsertSettled (type : Auth.auth_type)
    (reply : settled WriteResult.t) : M Auth.t progress :=
  in_outer_try
    (try_catch
       (_ <- await reply ;;
        ret tt)
       (fun profileError =>
          match type with
          | Auth.SIGNUP =>
              console_error "Profile creation failed (non-critical):"
                (Some profileError)
          | Auth.LOGIN =>
              console_error "Profile update failed:" (Some profileError)
          end) ;;
     ret Finished).

(** The three stretches one after the other, the way one click runs
    them when nothing else happens in between. *)
Definition handleAuth_stretches (origin : js_string) (type : Auth.auth_type)
    (auth_reply : settled AuthResult.t)
    (upsert_reply : settled WriteResult.t) : M Auth.t unit :=
  fun s =>
    let r1 := handleAuth_call origin type s in
    let r2 := handleAuth_authSettled type (Auth.email s) auth_reply (final r1) in
    match outcome r2 with
    | Normal Suspended =>
        let r3 := handleAuth_upsertSettled type upsert_reply (final r2) in
        (Normal tt, final r3, output r1 ++ output r2 ++ output r3)
    | _ => (Normal tt, final r2, output r1 ++ output r2)
    end.

(** A run of [handleAuth] that waits for a reply. *)
Inductive stage :=
| AwaitingAuth (type : Auth.auth_type) (email : js_string)
| AwaitingUpsert (type : Auth.auth_type).

Record form := { state : Auth.t; pending : list stage }.

Definition initial : form := {| state := Auth.initial; pending := [] |}.

Fixpoint take_auth (l : list stage)
  : option (Auth.auth_type * js_string * list stage) :=
  match l with
  | [] => None
  | AwaitingAuth type email :: rest => Some (type, email, rest)
  | x :: rest =>
      match take_auth rest with
      | Some (type, email, rest') => Some (type, email, x :: rest')
      | None => None
      end
  end.

Fixpoint take_upsert (l : list stage) : option (Auth.auth_type * list stage) :=
  match l with
  | [] => None
  | AwaitingUpsert type :: rest => Some (type, rest)
  | x :: rest =>
      match take_upsert rest with
      | Some (type, rest') => Some (type, x :: rest')
      | None => None
      end
  end.

Definition resume (r : completion progress * Auth.t * list effect)
    (type : Auth.auth_type) (rest : list stage) : form :=
  {| state := final r;
     pending := rest ++ match outcome r with
                        | Normal Suspended => [AwaitingUpsert type]
                        | _ => []
                        end |}.

Inductive event :=
| Email (value : js_string)
| Password (value : js_string)
| Click (type : Auth.auth_type)
| AuthSettled (reply : settled AuthResult.t)
| UpsertSettled (reply : settled WriteResult.t).

(** Both inputs and both buttons carry [disabled={loading}]. *)
Definition step (origin : js_string) (e : event) (a : form) : option form :=
  let s := state a in
  match e with
  | Email value =>
      if Auth.loading s then None
      else Some {| state := final (setEmail value s); pending := pending a |}
  | Password value =>
      if Auth.loading s then None
      else Some {| state := final (setPassword value s); pending := pending a |}
  | Click type =>
      if Auth.loading s then None
      else Some {| state := final (handleAuth_call origin type s);
                   pending := pending a ++ [AwaitingAuth type (Auth.email s)] |}
  | AuthSettled reply =>
      match take_auth (pending a) with
      | Some (type, email, rest) =>
          Some (resume (handleAuth_authSettled type email reply s) type rest)
      | None => None
      end
  | UpsertSettled reply =>
      match take_upsert (pending a) with
      | Some (type, rest) =>
          Some (resume (handleAuth_upsertSettled type reply s) type rest)
      | None => None
      end
  end.

Fixpoint run (origin : js_string) (es : list event) (a : form) : option form :=
  match es with
  | [] => Some a
  | e :: rest =>
      match step origin e a with
      | Some a' => run origin rest a'
      | None => None
      end
  end.

End AuthForm.

(** ** [App]: the session holder *)

Module Session.
(** The session object; the app reads [session.user.id] only. *)
Record t := { user : User.t }.
End Session.

Module App.

(** What is on screen, with the state its component has built up. *)
Inductive screen :=
| AuthScreen (form : AuthForm.form)
| FeedScreen (key : js_string) (feed : PostFeed.app).

Record t := {
  session : option Session.t;
  getSession_pending : bool;
  shown : screen
}.

(** [!session ? <Auth /> : <PostFeed key={session.user.id} />], against
    what was rendered before: React keeps a component whose type and key
    are the ones of the last render and mounts it anew otherwise. *)
Definition render (session : option Session.t) (before : screen) : screen :=
  match session with
  | None =>
      match before with
      | AuthScreen form => AuthScreen form
      | FeedScreen _ _ => AuthScreen AuthForm.initial
      end
  | Some s =>
      let key := User.id (Session.user s) in
      match before with
      | FeedScreen k feed =>
          if JsString.eqb k key then FeedScreen k feed
          else FeedScreen key PostFeed.mounted
      | AuthScreen _ => FeedScreen key PostFeed.mounted
      end
  end.

(** The first render and the mount effect, which asks for the session. *)
Definition mounted : t :=
  {| session := None; getSession_pending := true;
     shown := AuthScreen AuthForm.initial |}.

Definition setSession (s : option Session.t) (a : t) : t :=
  {| session := s; getSession_pending := getSession_pending a;
     shown := render s (shown a) |}.

Inductive event :=
| GotSession (s : option Session.t)
| AuthStateChange (s : option Session.t)
| InForm (e : AuthForm.event)
| InFeed (e : PostFeed.event).

Definition step (origin : js_string) (e : event) (a : t) : option t :=
  match e with
  | GotSession s =>
      if getSession_pending a
      then Some {| session := s; getSession_pending := false;
                   shown := render s (shown a) |}
      else None
  | AuthStateChange s => Some (setSession s a)
  | InForm e' =>
      match shown a with
      | AuthScreen form =>
          match AuthForm.step origin e' form with
          | Some form' =>
              Some {| session := session a;
                      getSession_pending := getSession_pending a;
                      shown := AuthScreen form' |}
          | None => None
          end
      | FeedScreen _ _ => None
      end
  | InFeed e' =>
      match shown a with
      | FeedScreen key feed =>
          match PostFeed.step e' feed with
          | Some feed' =>
              Some {| session := session a;
                      getSession_pending := getSession_pending a;
                      shown := FeedScreen key feed' |}
          | None => None
          end
      | AuthScreen _ => None
      end
  end.

Fixpoint run (origin : js_string) (es : list event) (a : t) : option t :=
  match es with
  | [] => Some a
  | e :: rest =>
      match step origin e a with
      | Some a' => run origin rest a'
      | None => None
      end
  end.


End App.

(** ** More vocabulary *)

Definition is_upsert (e : effect) : bool :=
  match e with Call (UpsertProfile _ _) => true | _ => false end.

Definition is_auth_call (e : effect) : bool :=
  match e with
  | Call (SignInWithPassword _ _) | Call (SignUp _ _ _ _) => true
  | _ => false
  end.

Definition is_call (e : effect) : bool :=
  match e with Call _ => true | _ => false end.

(** An auth reply that lets the run go on: no error in it. *)
Definition accepted (reply : settled AuthResult.t) : option (option User.t) :=
  match reply with
  | Fulfilled r =>
      match AuthResult.error r with
      | None => Some (AuthResult.data_user r)
      | Some _ => None
      end
  | Rejected _ => None
  end.

(** A write that did not go through: the promise rejects, or resolves
    with an error in it. *)
Definition write_error (reply : settled WriteResult.t) : option js_error :=
  match reply with
  | Rejected e => Some e
  | Fulfilled r => WriteResult.error r
  end.

(** The list after a notification. *)
Definition notified (payload : Payload.t) (s : PostFeed.t) : PostFeed.t :=
  final (PostFeed.on_postgres_changes payload s).

(** The [loading] flag counts the runs of [handleAuth] that have not
    reached their [finally]. *)
Definition loading_counts (a : AuthForm.form) : Prop :=
  List.length (AuthForm.pending a) =
  if Auth.loading (AuthForm.state a) then 1 else 0.

Definition typing : list AuthForm.event :=
  [AuthForm.Email (lit "a@b.com"); AuthForm.Password (lit "secret1");
   AuthForm.Click Auth.SIGNUP;
   AuthForm.AuthSettled
     (Fulfilled {| AuthResult.data_user := Some ada;
                   AuthResult.error := None |})].

Definition signup_waiting : AuthForm.form :=
  {| AuthForm.state :=
       {| Auth.email := lit "a@b.com"; Auth.password := lit "secret1";
          Auth.loading := true; Auth.error := None;
          Auth.message := Some Auth.verification_sent |};
     AuthForm.pending := [AuthForm.AwaitingUpsert Auth.SIGNUP] |}.

Definition deletion (old new : Post.t) : Payload.t :=
  {| Payload.eventType := PostFeed.DELETE; Payload.new := new;
     Payload.old := old |}.

Definition update (new old : Post.t) : Payload.t :=
  {| Payload.eventType := PostFeed.UPDATE; Payload.new := new;
     Payload.old := old |}.

Definition insertion (new old : Post.t) : Payload.t :=
  {| Payload.eventType := PostFeed.INSERT; Payload.new := new;
     Payload.old := old |}.

(** Promises of kind [p] that the effects of a stretch leave behind. *)
Definition count (p : PostFeed.promise) (out : list effect) : nat :=
  List.length (filter (PostFeed.promise_eqb p)
                 (flat_map PostFeed.promise_of out)).

(** A stretch that leaves [user] alone, looks up no user, writes no
    profile, and raises [loading] only together with a select. *)
Definition bystander (m : M PostFeed.t unit) : Prop :=
  forall s,
    PostFeed.user (final (m s)) = PostFeed.user s /\
    count PostFeed.UserLookup (output (m s)) = 0 /\
    count PostFeed.Upsert (output (m s)) = 0 /\
    (PostFeed.loading (final (m s)) = true ->
     PostFeed.loading s = true \/ 1 <= count PostFeed.Select (output (m s))).

(** While [loading] is set a select is awaited. *)
Definition spinner_waits (a : PostFeed.app) : Prop :=
  PostFeed.loading (PostFeed.state a) = true ->
  1 <= PostFeed.in_flight PostFeed.Select a.

(** The user is looked up once and the profile written at most once. *)
Definition one_identity (a : PostFeed.app) : Prop :=
  PostFeed.in_flight PostFeed.UserLookup a
  + PostFeed.in_flight PostFeed.Upsert a <= 1 /\
  (PostFeed.user (PostFeed.state a) <> None ->
   PostFeed.in_flight PostFeed.UserLookup a = 0).

(** How one step of the mounted feed comes about. *)
Inductive fired (a : PostFeed.app) (m : M PostFeed.t unit)
    (rest : list PostFeed.promise) : Prop :=
| fired_by_user :
    rest = PostFeed.pending a -> bystander m -> fired a m rest
| fired_by_settlement p :
    PostFeed.take_out p (PostFeed.pending a) = Some rest ->
    PostFeed.promise_eqb PostFeed.UserLookup p = false ->
    PostFeed.promise_eqb PostFeed.Select p = false ->
    bystander m -> fired a m rest
| fired_by_select :
    PostFeed.take_out PostFeed.Select (PostFeed.pending a) = Some rest ->
    bystander m ->
    (forall s, PostFeed.loading (final (m s)) = false) -> fired a m rest
| fired_by_getUser reply :
    PostFeed.take_out PostFeed.UserLookup (PostFeed.pending a) = Some rest ->
    m = PostFeed.initializeUser_gotUser reply -> fired a m rest.

Definition ada_known : list PostFeed.event :=
  [PostFeed.GetUserSettled
     (Fulfilled {| GetUserResult.user := Some ada;
                   GetUserResult.error := None |})].

Definition ada_feed : PostFeed.app :=
  {| PostFeed.state :=
       {| PostFeed.posts := []; PostFeed.user := Some ada;
          PostFeed.newPostContent := []; PostFeed.isPosting := false;
          PostFeed.loading := true; PostFeed.error := None |};
     PostFeed.pending := [PostFeed.Select; PostFeed.Upsert] |}.

Definition ada_later : list PostFeed.event :=
  [PostFeed.SelectSettled
     (Fulfilled {| SelectResult.data := Data.Array [];
                   SelectResult.error := None |});
   PostFeed.Change (lit "hello");
   PostFeed.Submit].

Definition empty_feed : PostFeed.app :=
  {| PostFeed.state :=
       {| PostFeed.posts := []; PostFeed.user := Some ada;
          PostFeed.newPostContent := []; PostFeed.isPosting := false;
          PostFeed.loading := false; PostFeed.error := None |};
     PostFeed.pending := [PostFeed.Upsert] |}.



(** * Properties *)

Unset Implicit Arguments.

Ltac run_js :=
  cbv beta iota zeta delta
    [bind ret throw perform get modify try_catch try_finally await throw_if
     when console_error call final output outcome fst snd app
     Auth.handleAuth Auth.setLoading Auth.setError Auth.setMessage
     Auth.user_id_of Auth.email Auth.password Auth.loading Auth.error
     Auth.message AuthResult.error AuthResult.data_user WriteResult.error
     PostFeed.fetchPosts_call PostFeed.fetchPosts_settled
     PostFeed.handleSubmitPost_call PostFeed.handleSubmitPost_settled
     PostFeed.initializeUser_call PostFeed.initializeUser_gotUser
     PostFeed.initializeUser_upserted PostFeed.on_postgres_changes
     PostFeed.sample_click PostFeed.sample_inserted PostFeed.user_id
     PostFeed.setPosts PostFeed.setUser PostFeed.setNewPostContent
     PostFeed.setIsPosting PostFeed.setLoading PostFeed.setError
     PostFeed.posts PostFeed.user PostFeed.newPostContent PostFeed.isPosting
     PostFeed.loading PostFeed.error
     SelectResult.error SelectResult.data GetUserResult.error
     GetUserResult.user].

(** ** Strings *)

Lemma trimStart_blank s : JsString.blank s = true -> JsString.trimStart s = [].
Proof.
  induction s as [|c r IH]; simpl; auto.
  intros H; apply andb_true_iff in H as [Hc Hr]. now rewrite Hc; auto.
Qed.

Lemma trimStart_nil_blank s : JsString.trimStart s = [] -> JsString.blank s = true.
Proof.
  induction s as [|c r IH]; simpl; auto.
  destruct (JsString.is_space c); simpl; auto; discriminate.
Qed.

Lemma trimStart_suffix s : exists p, s = p ++ JsString.trimStart s /\ JsString.blank p = true.
Proof.
  induction s as [|c r [p [E B]]]; simpl.
  - exists []; auto.
  - destruct (JsString.is_space c) eqn:Hc.
    + exists (c :: p); simpl; rewrite Hc, B; split; [congruence | reflexivity].
    + exists []; auto.
Qed.

Lemma blank_app a b :
  JsString.blank (a ++ b) = JsString.blank a && JsString.blank b.
Proof. apply forallb_app. Qed.

Lemma blank_rev a : JsString.blank (rev a) = JsString.blank a.
Proof.
  induction a as [|c r IH]; simpl; auto.
  rewrite blank_app, IH; simpl. now rewrite andb_true_r, andb_comm.
Qed.

(** [!s.trim()] holds exactly of the strings made of white space only. *)
Lemma trim_falsy_iff_blank s :
  JsString.truthy (JsString.trim s) = false <-> JsString.blank s = true.
Proof.
  unfold JsString.trim, JsString.trimEnd. split.
  - intros H.
    assert (E : JsString.trimStart (rev (JsString.trimStart s)) = []).
    { destruct (rev (JsString.trimStart (rev (JsString.trimStart s)))) eqn:R;
        [|discriminate].
      apply (f_equal (@rev N)) in R. now rewrite rev_involutive in R. }
    apply trimStart_nil_blank in E. rewrite blank_rev in E.
    destruct (trimStart_suffix s) as [p [Es Bp]].
    rewrite Es, blank_app, Bp, E. reflexivity.
  - intros B. now rewrite (trimStart_blank s B).
Qed.

Example trim_strips_both_ends :
  JsString.trim (lit "  first post  ") = lit "first post".
Proof. reflexivity. Qed.

Example trim_unicode_space :
  JsString.trim [160; 8201; 12288; 10]%N = [].
Proof. reflexivity. Qed.

Example includes_finds_marker :
  JsString.includes (lit "row-level security policy")
    (lit "new row violates row-level security policy for table profiles")
  = true /\
  JsString.includes (lit "row-level security policy")
    (lit "Invalid login credentials") = false.
Proof. split; reflexivity. Qed.

Example username_from_email :
  derived_username (Some (lit "a@b.com")) (lit "3f2b8c1e-user") = lit "a".
Proof. reflexivity. Qed.

Example username_fallback :
  derived_username (Some (lit "@b.com")) (lit "3f2b8c1e-user")
  = lit "user_3f2b8c1e" /\
  derived_username None (lit "3f2b8c1e-user") = lit "user_3f2b8c1e".
Proof. split; reflexivity. Qed.

(** ** The sign-in / sign-up form *)

(** The fallback text is a visible one whatever the message was. *)
Lemma or_else_truthy (a : js_string) (fallback : string) :
  JsString.truthy (lit fallback) = true ->
  JsString.truthy (JsString.or_else a (lit fallback)) = true.
Proof.
  intros H. unfold JsString.or_else.
  destruct (JsString.truthy a) eqn:Ha; assumption.
Qed.

(** What a refused [handleAuth] run leaves behind. *)
Lemma handleAuth_refused_run origin type reply upsert_reply e s :
  refused reply e ->
  exists sent,
    Auth.handleAuth origin type reply upsert_reply s =
    (Normal tt,
     {| Auth.email := Auth.email s; Auth.password := Auth.password s;
        Auth.loading := false;
        Auth.error :=
          if JsString.includes Auth.rls_marker (JsError.message e)
          then None
          else Some (JsString.or_else (JsError.message e)
                       (lit "Authentication failed"));
        Auth.message := None |},
     [Call sent; Console_error (lit "Auth error:") (Some e)]).
Proof.
  intros [-> | [u ->]]; destruct type; eexists; run_js;
    destruct (JsString.includes Auth.rls_marker (JsError.message e));
    reflexivity.
Qed.

(** C3: a refused sign-in whose message contains "row-level security
    policy" sets no error text and is only logged with [console.error];
    any other refused sign-in puts a visible text in [error], the
    message itself unless it is empty. *)
Theorem signin_failure_surfaced_unless_rls
    (origin : js_string) (reply : settled AuthResult.t)
    (upsert_reply : settled WriteResult.t) (e : js_error) (s : Auth.t) :
  refused reply e ->
  let r := Auth.handleAuth origin Auth.LOGIN reply upsert_reply s in
  In (Console_error (lit "Auth error:") (Some e)) (output r) /\
  Auth.message (final r) = None /\
  if JsString.includes Auth.rls_marker (JsError.message e)
  then Auth.error (final r) = None
  else exists text,
         Auth.error (final r) = Some text /\
         Auth.shown (Auth.error (final r)) = Some text /\
         (JsString.truthy (JsError.message e) = true ->
          text = JsError.message e).
Proof.
  intros H r.
  destruct (handleAuth_refused_run origin Auth.LOGIN reply upsert_reply e s H)
    as [sent E].
  subst r. rewrite E. unfold final, output. cbn [fst snd Auth.error Auth.message].
  split; [right; left; reflexivity|]. split; [reflexivity|].
  destruct (JsString.includes Auth.rls_marker (JsError.message e)).
  - reflexivity.
  - eexists. split; [reflexivity|]. split.
    + unfold Auth.shown. now rewrite or_else_truthy.
    + intros Ht. unfold JsString.or_else. now rewrite Ht.
Qed.

Lemma signin_failure_surfaced_unless_rls_witness :
  refused (Rejected rls_refusal) rls_refusal /\
  Auth.error
    (final (Auth.handleAuth (lit "https://chirp.example") Auth.LOGIN
              (Rejected rls_refusal) (Rejected rls_refusal) Auth.initial))
  = None.
Proof.
  split.
  - left. reflexivity.
  - exact (proj2 (proj2
      (signin_failure_surfaced_unless_rls (lit "https://chirp.example")
         (Rejected rls_refusal) (Rejected rls_refusal) rls_refusal
         Auth.initial (or_introl eq_refl)))).
Defined.

(** After a sign-up the auth service accepts, the form shows the
    verification text and no error, whatever the profile upsert does: a
    rejected upsert goes to [console.error], a resolved one is dropped
    unread. *)
Lemma signup_accepted_run origin u upsert_reply s :
  let r := Auth.handleAuth origin Auth.SIGNUP
             (Fulfilled {| AuthResult.data_user := u;
                           AuthResult.error := None |})
             upsert_reply s in
  final r =
    {| Auth.email := Auth.email s; Auth.password := Auth.password s;
       Auth.loading := false; Auth.error := None;
       Auth.message := Some Auth.verification_sent |} /\
  outcome r = Normal tt /\
  filter is_console_error (output r) =
    match u, upsert_reply with
    | None, _ =>
        [Console_error (lit "Profile creation failed (non-critical):")
           (Some (Error "Cannot read properties of null (reading 'id')"))]
    | Some _, Rejected e =>
        [Console_error (lit "Profile creation failed (non-critical):") (Some e)]
    | Some _, Fulfilled _ => []
    end.
Proof.
  destruct u, upsert_reply; repeat split; reflexivity.
Qed.

(** C4: the sign-up of [a@b.com] / [secret1] is accepted and the profile
    upsert resolves with an error in its [error] field, the way
    [initializeUser] reads it.  The verification text is shown and no
    error; but [handleAuth] never looks at the resolved value, so nothing
    is written to the console, where [initializeUser] logs the same reply. *)
Theorem signup_upsert_error_not_logged :
  let r := Auth.handleAuth (lit "https://chirp.example") Auth.SIGNUP
             (Fulfilled {| AuthResult.data_user := Some ada;
                           AuthResult.error := None |})
             upsert_refused signing_up in
  Auth.message (final r) = Some Auth.verification_sent /\
  Auth.error (final r) = None /\
  filter is_console_error (output r) = [] /\
  filter is_console_error
    (output (PostFeed.initializeUser_upserted upsert_refused PostFeed.initial))
  = [Console_error (lit "Profile initialization error:") (Some rls_refusal)].
Proof.
  repeat split; reflexivity.
Qed.

(** ** The feed view *)

Lemma strict_eq_refl k : Key.strict_eq k k = true.
Proof.
  destruct k as [n|s]; simpl.
  - apply Z.eqb_refl.
  - unfold JsString.eqb. destruct (list_eq_dec N.eq_dec s s); congruence.
Qed.

Lemma eqb_eq a b : JsString.eqb a b = true <-> a = b.
Proof.
  unfold JsString.eqb. destruct (list_eq_dec N.eq_dec a b); split;
    congruence.
Qed.

Lemma count_id_removed k rows :
  count_id k
    (filter (fun p => negb (Key.strict_eq (Post.id p) k)) rows) = 0.
Proof.
  unfold count_id. induction rows as [|p rows IH]; simpl; auto.
  destruct (Key.strict_eq (Post.id p) k) eqn:E; simpl; auto.
  now rewrite E.
Qed.

Lemma count_id_replaced new rows :
  count_id (Post.id new)
    (map (fun p => if Key.strict_eq (Post.id p) (Post.id new) then new else p)
       rows)
  = count_id (Post.id new) rows.
Proof.
  unfold count_id. induction rows as [|p rows IH]; simpl; auto.
  destruct (Key.strict_eq (Post.id p) (Post.id new)) eqn:E; simpl.
  - rewrite strict_eq_refl. simpl. now rewrite IH.
  - now rewrite E.
Qed.

Lemma replaced_rows_are_new new rows p :
  In p (map (fun p => if Key.strict_eq (Post.id p) (Post.id new)
                      then new else p) rows) ->
  Key.strict_eq (Post.id p) (Post.id new) = true -> p = new.
Proof.
  rewrite in_map_iff. intros [q [E _]] H.
  destruct (Key.strict_eq (Post.id q) (Post.id new)) eqn:Q; subst; congruence.
Qed.

(** C1: the change handler, by event type.  INSERT puts [payload.new] in
    front of the list, one more row with that id than before, whether or
    not the id was there.  DELETE keeps exactly the rows whose id differs
    from [payload.old.id], in order.  UPDATE maps every row with the id of
    [payload.new] to [payload.new] and keeps the others, so the length and
    the number of rows with that id stay.  None of the three sends a
    request.  Any other event type leaves the list alone and calls
    [fetchPosts]. *)
Theorem realtime_patch (payload : Payload.t) (s : PostFeed.t) :
  let r := PostFeed.on_postgres_changes payload s in
  let new := Payload.new payload in
  let old := Payload.old payload in
  let after := PostFeed.posts (final r) in
  if JsString.eqb (Payload.eventType payload) PostFeed.INSERT then
    after = new :: PostFeed.posts s /\
    count_id (Post.id new) after = S (count_id (Post.id new) (PostFeed.posts s)) /\
    refetches (output r) = false
  else if JsString.eqb (Payload.eventType payload) PostFeed.DELETE then
    after = filter (fun p => negb (Key.strict_eq (Post.id p) (Post.id old)))
              (PostFeed.posts s) /\
    count_id (Post.id old) after = 0 /\
    refetches (output r) = false
  else if JsString.eqb (Payload.eventType payload) PostFeed.UPDATE then
    after = map (fun p => if Key.strict_eq (Post.id p) (Post.id new)
                          then new else p) (PostFeed.posts s) /\
    List.length after = List.length (PostFeed.posts s) /\
    count_id (Post.id new) after = count_id (Post.id new) (PostFeed.posts s) /\
    (forall p, In p after ->
               Key.strict_eq (Post.id p) (Post.id new) = true -> p = new) /\
    refetches (output r) = false
  else
    after = PostFeed.posts s /\
    output r = Console_log (lit "Realtime update:")
               :: output (PostFeed.fetchPosts_call s) /\
    refetches (output r) = true.
Proof.
  intros r new old after. subst r after.
  unfold PostFeed.on_postgres_changes.
  destruct (JsString.eqb (Payload.eventType payload) PostFeed.INSERT).
  { repeat split. unfold count_id. cbn.
    fold new. now rewrite strict_eq_refl. }
  destruct (JsString.eqb (Payload.eventType payload) PostFeed.DELETE).
  { repeat split. apply count_id_removed. }
  destruct (JsString.eqb (Payload.eventType payload) PostFeed.UPDATE).
  { split; [reflexivity|]. split; [apply length_map|].
    split; [apply count_id_replaced|].
    split; [apply replaced_rows_are_new|reflexivity]. }
  repeat split.
Qed.

(** C5: with a draft of white space only (the empty one included), or
    with no user, [handleSubmitPost] stops after [preventDefault]: the
    state is the one it was called in and nothing is sent. *)
Theorem submit_blank_or_anonymous_is_noop (s : PostFeed.t) :
  JsString.blank (PostFeed.newPostContent s) = true \/ PostFeed.user s = None ->
  let r := PostFeed.handleSubmitPost_call s in
  final r = s /\
  PostFeed.posts (final r) = PostFeed.posts s /\
  output r = [PreventDefault] /\
  filter is_insert (output r) = [].
Proof.
  destruct s as [rows u draft posting ld er].
  cbn [PostFeed.newPostContent PostFeed.user]. intros H.
  assert (G : negb (JsString.truthy (JsString.trim draft))
              || negb (PostFeed.user_id_truthy u) = true).
  { destruct H as [B | U].
    - apply trim_falsy_iff_blank in B. now rewrite B.
    - rewrite U. apply orb_true_r. }
  run_js. rewrite G.
  repeat split.
Qed.

Lemma submit_blank_or_anonymous_is_noop_witness :
  (JsString.blank (PostFeed.newPostContent spaces_only) = true \/
   PostFeed.user spaces_only = None) /\
  final (PostFeed.handleSubmitPost_call spaces_only) = spaces_only.
Proof.
  split.
  - left. reflexivity.
  - exact (proj1 (submit_blank_or_anonymous_is_noop spaces_only
                    (or_introl eq_refl))).
Defined.

(** An INSERT that echoes a row already in the list shows it twice. *)
Example insert_echo_duplicates :
  let echo := {| Payload.eventType := PostFeed.INSERT;
                 Payload.new := post 1 "first" 100;
                 Payload.old := post 1 "first" 100 |} in
  PostFeed.posts
    (final (PostFeed.on_postgres_changes echo
              (final (PostFeed.handleSubmitPost_settled
                        (Fulfilled (SingleResult.Row (post 1 "first" 100)))
                        busy))))
  = [post 1 "first" 100; post 1 "first" 100].
Proof. reflexivity. Qed.

(** [fetchPosts] sends one select, the one that orders by [created_at]
    descending, and touches [loading] and [error] only. *)
Lemma fetchPosts_call_run s :
  PostFeed.fetchPosts_call s =
  (Normal tt,
   {| PostFeed.posts := PostFeed.posts s; PostFeed.user := PostFeed.user s;
      PostFeed.newPostContent := PostFeed.newPostContent s;
      PostFeed.isPosting := PostFeed.isPosting s;
      PostFeed.loading := true; PostFeed.error := None |},
   [Call (SelectPosts PostFeed.posts_query)]).
Proof. reflexivity. Qed.

(** A failed select changes [error] and [loading] and nothing else. *)
Lemma fetchPosts_settled_failed reply s :
  select_failed reply = true ->
  exists err,
    PostFeed.fetchPosts_settled reply s =
    (Normal tt,
     {| PostFeed.posts := PostFeed.posts s; PostFeed.user := PostFeed.user s;
        PostFeed.newPostContent := PostFeed.newPostContent s;
        PostFeed.isPosting := PostFeed.isPosting s;
        PostFeed.loading := false;
        PostFeed.error := Some PostFeed.reload_prompt |},
     [Console_error (lit "Failed to fetch posts:") (Some err)]).
Proof.
  destruct reply as [[data [e|]]|e]; simpl; intros H.
  - exists e. reflexivity.
  - exists (Error "Invalid data format received").
    unfold PostFeed.fetchPosts_settled. run_js.
    apply negb_true_iff in H. rewrite H, andb_false_r. reflexivity.
  - exists e. reflexivity.
Qed.

(** C6: a select that resolves with an array and no error is a
    successful [fetchPosts]; the list is then that array, as received.
    The store owes rows in the order the query asked for, and the query
    [fetchPosts] sends asks for [created_at] descending, so the list is
    newest first. *)
Theorem fetch_success_stores_rows_newest_first
    (s s' : PostFeed.t) (rows : list Post.t) :
  let reply := {| SelectResult.data := Data.Array rows;
                  SelectResult.error := None |} in
  (forall q, In (Call (SelectPosts q)) (output (PostFeed.fetchPosts_call s)) ->
             Store.honours_order q reply) ->
  let r := PostFeed.fetchPosts_settled (Fulfilled reply) s' in
  PostFeed.posts (final r) = rows /\
  PostFeed.newest_first (PostFeed.posts (final r)) = true /\
  PostFeed.error (final r) = PostFeed.error s' /\
  PostFeed.loading (final r) = false.
Proof.
  intros reply H r.
  assert (S : PostFeed.newest_first rows = true).
  { apply (H PostFeed.posts_query); [left; reflexivity | reflexivity |].
    reflexivity. }
  subst r. cbn. repeat split. exact S.
Qed.

Lemma fetch_success_stores_rows_newest_first_witness :
  (forall q,
      In (Call (SelectPosts q))
         (output (PostFeed.fetchPosts_call PostFeed.initial)) ->
      Store.honours_order q {| SelectResult.data := Data.Array two_rows;
                               SelectResult.error := None |}) /\
  PostFeed.posts
    (final (PostFeed.fetchPosts_settled
              (Fulfilled {| SelectResult.data := Data.Array two_rows;
                            SelectResult.error := None |})
              (final (PostFeed.fetchPosts_call PostFeed.initial))))
  = two_rows.
Proof.
  assert (H : forall q,
      In (Call (SelectPosts q))
         (output (PostFeed.fetchPosts_call PostFeed.initial)) ->
      Store.honours_order q {| SelectResult.data := Data.Array two_rows;
                               SelectResult.error := None |}).
  { intros q _ _ rows E. injection E as <-. reflexivity. }
  split.
  - exact H.
  - exact (proj1 (fetch_success_stores_rows_newest_first PostFeed.initial
                    (final (PostFeed.fetchPosts_call PostFeed.initial))
                    two_rows H)).
Defined.

(** C7: a select that resolves with data that is not an array, with or
    without an error beside it, ends in the [catch]: the reload prompt is
    the error text, the list is the one that was there, the failure is
    logged, and [loading] is off. *)
Theorem fetch_non_array_is_failure
    (r0 : SelectResult.t) (s : PostFeed.t) :
  Data.isArray (SelectResult.data r0) = false ->
  let r := PostFeed.fetchPosts_settled (Fulfilled r0) s in
  PostFeed.error (final r) = Some PostFeed.reload_prompt /\
  PostFeed.posts (final r) = PostFeed.posts s /\
  PostFeed.loading (final r) = false /\
  exists err, output r = [Console_error (lit "Failed to fetch posts:") (Some err)].
Proof.
  intros H r.
  assert (F : select_failed (Fulfilled r0) = true).
  { simpl. destruct (SelectResult.error r0); [reflexivity|]. now rewrite H. }
  destruct (fetchPosts_settled_failed (Fulfilled r0) s F) as [err E].
  subst r. rewrite E. repeat split. now exists err.
Qed.

Lemma fetch_non_array_is_failure_witness :
  Data.isArray (SelectResult.data {| SelectResult.data := Data.Null;
                                     SelectResult.error := None |}) = false /\
  PostFeed.error
    (final (PostFeed.fetchPosts_settled
              (Fulfilled {| SelectResult.data := Data.Null;
                            SelectResult.error := None |})
              PostFeed.initial))
  = Some PostFeed.reload_prompt.
Proof.
  split.
  - reflexivity.
  - exact (proj1 (fetch_non_array_is_failure
                    {| SelectResult.data := Data.Null;
                       SelectResult.error := None |}
                    PostFeed.initial eq_refl)).
Defined.

(** C9: a [fetchPosts] whose select fails, called in [s] and settled in
    [s'] (the same state up to what happened in between), leaves
    [posts], [user], the draft and the busy flag of both as they were:
    the call sets [loading] and clears [error], the settlement sets the
    reload prompt and clears [loading]. *)
Theorem fetch_failure_keeps_posts
    (reply : settled SelectResult.t) (s s' : PostFeed.t) :
  select_failed reply = true ->
  let called := final (PostFeed.fetchPosts_call s) in
  let settled_ := final (PostFeed.fetchPosts_settled reply s') in
  (PostFeed.posts called = PostFeed.posts s /\
   PostFeed.user called = PostFeed.user s /\
   PostFeed.newPostContent called = PostFeed.newPostContent s /\
   PostFeed.isPosting called = PostFeed.isPosting s) /\
  (PostFeed.posts settled_ = PostFeed.posts s' /\
   PostFeed.user settled_ = PostFeed.user s' /\
   PostFeed.newPostContent settled_ = PostFeed.newPostContent s' /\
   PostFeed.isPosting settled_ = PostFeed.isPosting s') /\
  PostFeed.posts (final (PostFeed.fetchPosts_settled reply called))
  = PostFeed.posts s /\
  PostFeed.error settled_ = Some PostFeed.reload_prompt /\
  PostFeed.loading settled_ = false.
Proof.
  intros F called settled_.
  destruct (fetchPosts_settled_failed reply s' F) as [e1 E1].
  destruct (fetchPosts_settled_failed reply called F) as [e2 E2].
  subst settled_. rewrite E1, E2. subst called.
  rewrite fetchPosts_call_run. repeat split.
Qed.

Lemma fetch_failure_keeps_posts_witness :
  select_failed (Rejected (Error "Failed to fetch")) = true /\
  PostFeed.posts
    (final (PostFeed.fetchPosts_settled (Rejected (Error "Failed to fetch"))
              (final (PostFeed.fetchPosts_call spaces_only))))
  = PostFeed.posts spaces_only.
Proof.
  split.
  - reflexivity.
  - exact (proj1 (proj2 (proj2
      (fetch_failure_keeps_posts (Rejected (Error "Failed to fetch"))
         spaces_only spaces_only eq_refl)))).
Defined.

(** C10: [handleSubmitPost] writes [isPosting] and [error] before the
    insert and, once it settles, [isPosting], then either the new head of
    [posts] and the empty draft (a row came back) or [error] (it did
    not).  [user] and [loading] are never written, the rows already in
    the list stay, and a failed insert leaves the draft and the list. *)
Theorem submit_frame (reply : settled SingleResult.t) (s s' : PostFeed.t) :
  let called := final (PostFeed.handleSubmitPost_call s) in
  let r := PostFeed.handleSubmitPost_settled reply s' in
  (PostFeed.posts called = PostFeed.posts s /\
   PostFeed.newPostContent called = PostFeed.newPostContent s /\
   PostFeed.user called = PostFeed.user s /\
   PostFeed.loading called = PostFeed.loading s) /\
  (PostFeed.user (final r) = PostFeed.user s' /\
   PostFeed.loading (final r) = PostFeed.loading s' /\
   PostFeed.isPosting (final r) = false) /\
  match reply with
  | Fulfilled (SingleResult.Row newPost) =>
      PostFeed.newPostContent (final r) = [] /\
      PostFeed.posts (final r) = newPost :: PostFeed.posts s' /\
      PostFeed.error (final r) = PostFeed.error s'
  | Fulfilled (SingleResult.Failure e) | Rejected e =>
      PostFeed.newPostContent (final r) = PostFeed.newPostContent s' /\
      PostFeed.posts (final r) = PostFeed.posts s' /\
      PostFeed.error (final r) =
        Some (JsString.or_else (JsError.message e) PostFeed.create_failed)
  end.
Proof.
  intros called r. split.
  - subst called. destruct s as [rows u draft posting ld er].
    run_js.
    destruct (negb (JsString.truthy (JsString.trim draft))
              || negb (PostFeed.user_id_truthy u)); repeat split.
  - subst r. destruct reply as [[newPost|e]|e]; repeat split.
Qed.

(** *** Submissions in flight *)

Lemma take_out_same p l rest :
  PostFeed.take_out p l = Some rest ->
  List.length (filter (PostFeed.promise_eqb p) l)
  = S (List.length (filter (PostFeed.promise_eqb p) rest)).
Proof.
  revert rest. induction l as [|q l IH]; simpl; intros rest H; [discriminate|].
  destruct (PostFeed.promise_eqb p q) eqn:E.
  - now injection H as <-.
  - destruct (PostFeed.take_out p l) as [r'|]; [|discriminate].
    injection H as <-. simpl. rewrite E. now apply IH.
Qed.

Lemma take_out_other p q l rest :
  PostFeed.take_out p l = Some rest ->
  PostFeed.promise_eqb q p = false ->
  filter (PostFeed.promise_eqb q) l = filter (PostFeed.promise_eqb q) rest.
Proof.
  revert rest. induction l as [|x l IH]; simpl; intros rest H N; [discriminate|].
  destruct (PostFeed.promise_eqb p x) eqn:E.
  - injection H as <-.
    assert (x = p) by (destruct p, x; simpl in E; congruence). subst x.
    now rewrite N.
  - destruct (PostFeed.take_out p l) as [r'|]; [|discriminate].
    injection H as <-. simpl. now rewrite (IH r' eq_refl N).
Qed.

Lemma in_flight_dispatch {A} p (m : M PostFeed.t A) s waiting :
  PostFeed.in_flight p (PostFeed.dispatch m s waiting) =
  List.length (filter (PostFeed.promise_eqb p) waiting) +
  List.length (filter (PostFeed.promise_eqb p)
                 (flat_map PostFeed.promise_of (output (m s)))).
Proof.
  unfold PostFeed.in_flight, PostFeed.dispatch. cbn [PostFeed.pending].
  now rewrite filter_app, length_app.
Qed.

Lemma quiet_dispatch {A} (m : M PostFeed.t A) a :
  quiet m -> flag_counts a ->
  flag_counts (PostFeed.dispatch m (PostFeed.state a) (PostFeed.pending a)).
Proof.
  intros Q I. destruct (Q (PostFeed.state a)) as [F O].
  unfold flag_counts. rewrite in_flight_dispatch, O.
  unfold PostFeed.dispatch. cbn [PostFeed.state]. rewrite F.
  simpl. rewrite Nat.add_0_r. exact I.
Qed.

Lemma quiet_settle {A} p (m : M PostFeed.t A) a a' :
  quiet m -> PostFeed.promise_eqb PostFeed.Submission p = false ->
  PostFeed.settle p m a = Some a' -> flag_counts a -> flag_counts a'.
Proof.
  unfold PostFeed.settle. intros Q N H I.
  destruct (PostFeed.take_out p (PostFeed.pending a)) as [rest|] eqn:T;
    [|discriminate].
  injection H as <-. destruct (Q (PostFeed.state a)) as [F O].
  unfold flag_counts. rewrite in_flight_dispatch, O.
  unfold PostFeed.dispatch. cbn [PostFeed.state]. rewrite F.
  simpl. rewrite Nat.add_0_r.
  rewrite <- (take_out_other _ _ _ _ T N). exact I.
Qed.

Lemma quiet_setNewPostContent value : quiet (PostFeed.setNewPostContent value).
Proof. intros s. split; reflexivity. Qed.

Lemma quiet_fetchPosts_call : quiet PostFeed.fetchPosts_call.
Proof. intros s. split; reflexivity. Qed.

Lemma quiet_sample_click : quiet PostFeed.sample_click.
Proof. intros [rows [u|] draft posting ld er]; split; reflexivity. Qed.

Lemma quiet_on_postgres_changes payload :
  quiet (PostFeed.on_postgres_changes payload).
Proof.
  intros s. unfold PostFeed.on_postgres_changes.
  destruct (JsString.eqb (Payload.eventType payload) PostFeed.INSERT);
    [split; reflexivity|].
  destruct (JsString.eqb (Payload.eventType payload) PostFeed.DELETE);
    [split; reflexivity|].
  destruct (JsString.eqb (Payload.eventType payload) PostFeed.UPDATE);
    split; reflexivity.
Qed.

Lemma quiet_fetchPosts_settled reply : quiet (PostFeed.fetchPosts_settled reply).
Proof.
  intros s. destruct reply as [[data [e|]]|e]; try (split; reflexivity).
  unfold PostFeed.fetchPosts_settled. run_js.
  destruct (Data.truthy data && Data.isArray data); split; reflexivity.
Qed.

Lemma quiet_sample_inserted reply : quiet (PostFeed.sample_inserted reply).
Proof. intros s. destruct reply; split; reflexivity. Qed.

Lemma quiet_initializeUser_gotUser reply :
  quiet (PostFeed.initializeUser_gotUser reply).
Proof.
  intros s. destruct reply as [[[u|] [e|]]|e]; split; reflexivity.
Qed.

Lemma quiet_initializeUser_upserted reply :
  quiet (PostFeed.initializeUser_upserted reply).
Proof. intros s. destruct reply as [[[e|]]|e]; split; reflexivity. Qed.

(** A submit that the form lets through starts from a clear flag and
    either stops at the guard or raises the flag and sends one insert. *)
Lemma submit_dispatch a :
  PostFeed.submit_disabled (PostFeed.state a) = false ->
  flag_counts a ->
  flag_counts (PostFeed.dispatch PostFeed.handleSubmitPost_call
                 (PostFeed.state a) (PostFeed.pending a)).
Proof.
  unfold flag_counts. rewrite in_flight_dispatch.
  unfold PostFeed.submit_disabled, PostFeed.dispatch, PostFeed.in_flight.
  destruct a as [[rows u draft posting ld er] waiting].
  cbn [PostFeed.state PostFeed.pending PostFeed.isPosting
       PostFeed.newPostContent].
  intros D I. apply orb_false_iff in D as [-> D]. rewrite I.
  run_js.
  destruct (negb (JsString.truthy (JsString.trim draft))
            || negb (PostFeed.user_id_truthy u)); reflexivity.
Qed.

(** The settlement of a submission takes the one pending insert away and
    clears the flag. *)
Lemma submission_settle reply a a' :
  PostFeed.settle PostFeed.Submission
    (PostFeed.handleSubmitPost_settled reply) a = Some a' ->
  flag_counts a -> flag_counts a'.
Proof.
  unfold PostFeed.settle. intros H I.
  destruct (PostFeed.take_out PostFeed.Submission (PostFeed.pending a))
    as [rest|] eqn:T; [|discriminate].
  injection H as <-. apply take_out_same in T.
  unfold flag_counts in *. unfold PostFeed.in_flight in I.
  rewrite T in I. rewrite in_flight_dispatch.
  assert (R : List.length
                (filter (PostFeed.promise_eqb PostFeed.Submission) rest) = 0).
  { destruct (PostFeed.isPosting (PostFeed.state a)); lia. }
  rewrite R.
  destruct reply as [[newPost|e]|e]; reflexivity.
Qed.

Lemma step_keeps_flag_counts e a a' :
  PostFeed.step e a = Some a' -> flag_counts a -> flag_counts a'.
Proof.
  destruct e; cbn [PostFeed.step]; intros H I.
  - destruct (_ && _); [|discriminate]. injection H as <-.
    apply quiet_dispatch; auto using quiet_setNewPostContent.
  - destruct (PostFeed.form_shown (PostFeed.state a)); [|discriminate].
    destruct (PostFeed.submit_disabled (PostFeed.state a)) eqn:D;
      [discriminate|].
    injection H as <-. now apply submit_dispatch.
  - destruct (PostFeed.sample_shown _); [|discriminate]. injection H as <-.
    apply quiet_dispatch; auto using quiet_sample_click.
  - destruct (PostFeed.user_id_truthy _); [|discriminate]. injection H as <-.
    apply quiet_dispatch; auto using quiet_on_postgres_changes.
  - eapply submission_settle; eauto.
  - eapply quiet_settle; [apply (quiet_fetchPosts_settled reply) | | exact H | exact I]; reflexivity.
  - eapply quiet_settle; [apply (quiet_sample_inserted reply) | | exact H | exact I]; reflexivity.
  - eapply quiet_settle; [apply (quiet_initializeUser_gotUser reply) | | exact H | exact I]; reflexivity.
  - eapply quiet_settle; [apply (quiet_initializeUser_upserted reply) | | exact H | exact I]; reflexivity.
Qed.

Lemma run_keeps_flag_counts es : forall a a',
  PostFeed.run es a = Some a' -> flag_counts a -> flag_counts a'.
Proof.
  induction es as [|e es IH]; simpl; intros a a' H I.
  - now injection H as <-.
  - destruct (PostFeed.step e a) as [a1|] eqn:S1; [|discriminate].
    eapply IH; eauto using step_keeps_flag_counts.
Qed.

(** C2, as stated, fails on the handler: called while the busy flag is
    up, with a draft and a user, [handleSubmitPost] sends a second
    insert; it never reads [isPosting]. *)
Lemma submit_handler_ignores_busy_flag :
  PostFeed.isPosting busy = true /\
  filter is_insert (output (PostFeed.handleSubmitPost_call busy))
  = [Call (InsertPost (lit "hello") (User.id ada) true)].
Proof. split; reflexivity. Qed.

(** C2, amended: the guard is the form.  After any sequence of user
    events, notifications and settlements that the mounted component can
    go through, the number of submissions in flight is 1 when
    [isPosting] is set and 0 when it is not, so never more than one; and
    while [isPosting] is set the submit button is disabled, so a submit
    through the form does not reach the handler. *)
Theorem one_submission_in_flight (es : list PostFeed.event) (a : PostFeed.app) :
  PostFeed.run es PostFeed.mounted = Some a ->
  PostFeed.in_flight PostFeed.Submission a
  = (if PostFeed.isPosting (PostFeed.state a) then 1 else 0) /\
  PostFeed.in_flight PostFeed.Submission a <= 1 /\
  (PostFeed.isPosting (PostFeed.state a) = true ->
   PostFeed.submit_disabled (PostFeed.state a) = true /\
   PostFeed.step PostFeed.Submit a = None).
Proof.
  intros H.
  assert (I : flag_counts a).
  { eapply run_keeps_flag_counts; eauto. reflexivity. }
  split; [exact I|]. split.
  - rewrite I. destruct (PostFeed.isPosting (PostFeed.state a)); lia.
  - intros B. unfold PostFeed.step, PostFeed.submit_disabled. rewrite B.
    simpl. now rewrite andb_false_r.
Qed.

Lemma one_submission_in_flight_witness :
  PostFeed.run ada_session PostFeed.mounted = Some ada_posting /\
  PostFeed.in_flight PostFeed.Submission ada_posting <= 1.
Proof.
  split.
  - reflexivity.
  - exact (proj1 (proj2 (one_submission_in_flight ada_session ada_posting
                           eq_refl))).
Defined.

(** ** The profile upsert against the store *)

Lemma ids_updated p tbl :
  map Store.id
    (map (fun r => if Store.has_id (Profile.id p) r
                   then Store.updated p r else r) tbl)
  = map Store.id tbl.
Proof.
  rewrite map_map. apply map_ext. intros r.
  now destruct (Store.has_id (Profile.id p) r).
Qed.

Lemma rows_of_by_ids i tbl :
  Store.rows_of i tbl =
  List.length (filter (fun j => JsString.eqb j i) (map Store.id tbl)).
Proof.
  unfold Store.rows_of, Store.has_id.
  induction tbl as [|r tbl IH]; simpl; auto.
  destruct (JsString.eqb (Store.id r) i); simpl; auto.
Qed.

Lemma stored_iff_in i tbl :
  existsb (Store.has_id i) tbl = true <-> In i (map Store.id tbl).
Proof.
  rewrite existsb_exists, in_map_iff. unfold Store.has_id.
  split; intros [r [A B]]; exists r.
  - apply eqb_eq in B. auto.
  - rewrite eqb_eq. auto.
Qed.

Lemma unique_rows i ids :
  NoDup ids ->
  List.length (filter (fun j => JsString.eqb j i) ids)
  = if in_dec (list_eq_dec N.eq_dec) i ids then 1 else 0.
Proof.
  induction 1 as [|j ids Hn D IH]; simpl; auto.
  destruct (JsString.eqb j i) eqn:E.
  - apply eqb_eq in E. subst j. simpl. rewrite IH.
    destruct (list_eq_dec N.eq_dec i i); [|congruence].
    destruct (in_dec (list_eq_dec N.eq_dec) i ids); [contradiction|reflexivity].
  - rewrite IH. unfold JsString.eqb in E.
    destruct (list_eq_dec N.eq_dec j i); [discriminate|].
    destruct (in_dec (list_eq_dec N.eq_dec) i ids); reflexivity.
Qed.

(** One upsert leaves one row for its id, and the key constraint. *)
Lemma upsert_once p tbl :
  Store.unique_ids tbl ->
  Store.unique_ids (Store.upsert p tbl) /\
  Store.rows_of (Profile.id p) (Store.upsert p tbl) = 1 /\
  existsb (Store.has_id (Profile.id p)) (Store.upsert p tbl) = true.
Proof.
  unfold Store.unique_ids, Store.upsert. intros U.
  destruct (existsb (Store.has_id (Profile.id p)) tbl) eqn:E.
  - assert (I : In (Profile.id p) (map Store.id tbl)) by now apply stored_iff_in.
    rewrite rows_of_by_ids, ids_updated. split; [exact U|]. split.
    + rewrite (unique_rows _ _ U).
      destruct (in_dec (list_eq_dec N.eq_dec) (Profile.id p) (map Store.id tbl));
        [reflexivity|contradiction].
    + apply stored_iff_in. now rewrite ids_updated.
  - assert (I : ~ In (Profile.id p) (map Store.id tbl)).
    { intros I. apply stored_iff_in in I. congruence. }
    assert (U' : NoDup (map Store.id (tbl ++ [Store.inserted p]))).
    { rewrite map_app. simpl. apply NoDup_app; auto.
      - repeat constructor. intros [].
      - intros x Hx [<-|[]]. contradiction. }
    split; [exact U'|]. split.
    + rewrite rows_of_by_ids, (unique_rows _ _ U').
      destruct (in_dec _ _ _) as [|Hn]; [reflexivity|].
      exfalso. apply Hn. rewrite map_app. apply in_or_app. right. now left.
    + apply stored_iff_in. rewrite map_app. apply in_or_app. right. now left.
Qed.

(** A second upsert under the same id adds no row. *)
Lemma upsert_again p q tbl :
  Profile.id q = Profile.id p ->
  existsb (Store.has_id (Profile.id p)) tbl = true ->
  List.length (Store.upsert q tbl) = List.length tbl.
Proof.
  intros E H. unfold Store.upsert. rewrite E, H. apply length_map.
Qed.

(** Each site sends one upsert, keyed on [id], with the id of [u]. *)
Lemma upsert_site_serves origin u reply a s out :
  In out (upsert_sites origin u reply a s) ->
  exists p, Profile.id p = User.id u /\
            forall tbl, Store.serve_all out tbl = Store.upsert p tbl.
Proof.
  intros [<-|[<-|[<-|[]]]].
  - eexists. split; [|intros tbl; reflexivity]. reflexivity.
  - destruct reply; eexists; (split; [|intros tbl; reflexivity]); reflexivity.
  - destruct reply; eexists; (split; [|intros tbl; reflexivity]); reflexivity.
Qed.

(** C8: against a [profiles] table that holds at most one row per id,
    any two of the client's profile upserts for the same user, served one
    after the other, leave exactly one row with that user's id: the
    first makes sure there is one, the second adds none. *)
Theorem profile_upsert_twice_one_row
    (origin : js_string) (u : User.t) (reply : settled WriteResult.t)
    (a : Auth.t) (s : PostFeed.t) (tbl : Store.table)
    (first second : list effect) :
  Store.unique_ids tbl ->
  In first (upsert_sites origin u reply a s) ->
  In second (upsert_sites origin u reply a s) ->
  let once := Store.serve_all first tbl in
  let twice := Store.serve_all second once in
  Store.rows_of (User.id u) once = 1 /\
  Store.rows_of (User.id u) twice = 1 /\
  List.length twice = List.length once /\
  Store.unique_ids twice.
Proof.
  intros U H1 H2 once twice.
  destruct (upsert_site_serves _ _ _ _ _ _ H1) as [p [Ep Sp]].
  destruct (upsert_site_serves _ _ _ _ _ _ H2) as [q [Eq Sq]].
  subst twice once. rewrite Sp, Sq.
  destruct (upsert_once p tbl U) as [U1 [R1 X1]].
  destruct (upsert_once q (Store.upsert p tbl) U1) as [U2 [R2 _]].
  rewrite <- Ep. split; [exact R1|]. split; [|split].
  - rewrite Ep, <- Eq. exact R2.
  - apply upsert_again with (p := p); [congruence|exact X1].
  - exact U2.
Qed.

Lemma profile_upsert_twice_one_row_witness :
  Store.unique_ids [] /\
  Store.rows_of (User.id ada)
    (Store.serve_all
       (output (Auth.handleAuth (lit "https://chirp.example") Auth.LOGIN
                  (Fulfilled {| AuthResult.data_user := Some ada;
                                AuthResult.error := None |})
                  upsert_refused signing_up))
       (Store.serve_all
          (output (PostFeed.initializeUser_gotUser
                     (Fulfilled {| GetUserResult.user := Some ada;
                                   GetUserResult.error := None |})
                     PostFeed.initial))
          [])) = 1.
Proof.
  split.
  - constructor.
  - exact (proj1 (proj2
      (profile_upsert_twice_one_row (lit "https://chirp.example") ada
         upsert_refused signing_up PostFeed.initial [] _ _
         (NoDup_nil _) (or_introl eq_refl) (or_intror (or_introl eq_refl))))).
Defined.

(** ** More on the sign-in / sign-up form *)

Ltac run_form :=
  cbv beta iota zeta delta
    [AuthForm.handleAuth_stretches AuthForm.handleAuth_call
     AuthForm.handleAuth_authSettled AuthForm.handleAuth_upsertSettled
     AuthForm.in_outer_try AuthForm.on_catch AuthForm.resume
     AuthForm.setEmail AuthForm.setPassword];
  run_js.

(** X1: Whatever the auth service and the store answer, [handleAuth] ends
    normally with [loading] off and the credentials as typed, and never
    with both an error and a message set. *)
Theorem handleAuth_always_settles
    (origin : js_string) (type : Auth.auth_type)
    (auth_reply : settled AuthResult.t)
    (upsert_reply : settled WriteResult.t) (s : Auth.t) :
  let r := Auth.handleAuth origin type auth_reply upsert_reply s in
  outcome r = Normal tt /\
  Auth.loading (final r) = false /\
  Auth.email (final r) = Auth.email s /\
  Auth.password (final r) = Auth.password s /\
  (Auth.error (final r) = None \/ Auth.message (final r) = None).
Proof.
  destruct auth_reply as [[u [e|]]|e].
  - destruct (handleAuth_refused_run origin type _ upsert_reply e s
                (or_intror (ex_intro _ u eq_refl))) as [sent E].
    cbv zeta. rewrite E. repeat split. right. reflexivity.
  - destruct type, u, upsert_reply; repeat split; left; reflexivity.
  - destruct (handleAuth_refused_run origin type _ upsert_reply e s
                (or_introl eq_refl)) as [sent E].
    cbv zeta. rewrite E. repeat split. right. reflexivity.
Qed.

(** X2: A run sends one auth request, with the credentials of the form, and
    a profile upsert only once the auth reply has come back without an
    error and with a user: then one upsert keyed on [id], under the
    user's id, named after the email typed (sign-up) or the account's
    email (sign-in). *)
Theorem handleAuth_requests
    (origin : js_string) (type : Auth.auth_type)
    (auth_reply : settled AuthResult.t)
    (upsert_reply : settled WriteResult.t) (s : Auth.t) :
  let r := Auth.handleAuth origin type auth_reply upsert_reply s in
  filter is_auth_call (output r) =
    [Call match type with
          | Auth.LOGIN => SignInWithPassword (Auth.email s) (Auth.password s)
          | Auth.SIGNUP =>
              SignUp (Auth.email s) (Auth.password s)
                (origin ++ lit "/auth/callback")
                (JsString.split_head JsString.at_sign (Auth.email s))
          end] /\
  filter is_upsert (output r) =
    match accepted auth_reply with
    | Some (Some u) =>
        [Call (UpsertProfile
                 {| Profile.id := User.id u;
                    Profile.username :=
                      derived_username
                        match type with
                        | Auth.LOGIN => User.email u
                        | Auth.SIGNUP => Some (Auth.email s)
                        end (User.id u);
                    Profile.avatar_url := None |}
                 (lit "id"))]
    | _ => []
    end.
Proof.
  destruct auth_reply as [[u [e|]]|e].
  - destruct type; cbv zeta; run_js;
      destruct (JsString.includes Auth.rls_marker (JsError.message e));
      split; reflexivity.
  - destruct type, u, upsert_reply; split; reflexivity.
  - destruct type; cbv zeta; run_js;
      destruct (JsString.includes Auth.rls_marker (JsError.message e));
      split; reflexivity.
Qed.

(** X3: After a sign-up the auth service accepts, the verification text is
    shown and no error, whatever the profile upsert does and also when
    the reply carries no user; [loading] ends off and the credentials
    stay as typed. *)
Theorem signup_accepted_whatever_upsert
    (origin : js_string) (u : option User.t)
    (upsert_reply : settled WriteResult.t) (s : Auth.t) :
  let r := Auth.handleAuth origin Auth.SIGNUP
             (Fulfilled {| AuthResult.data_user := u;
                           AuthResult.error := None |})
             upsert_reply s in
  Auth.shown (Auth.message (final r)) = Some Auth.verification_sent /\
  Auth.error (final r) = None /\
  Auth.loading (final r) = false /\
  Auth.email (final r) = Auth.email s /\
  Auth.password (final r) = Auth.password s /\
  outcome r = Normal tt.
Proof.
  destruct (signup_accepted_run origin u upsert_reply s) as [F [O _]].
  cbv zeta. rewrite F, O. repeat split.
Qed.

(** X4: After a sign-in the auth service accepts, no error and no message is
    shown whatever the profile upsert does; without a user in the reply
    no upsert is tried, and an upsert whose promise rejects goes to
    [console.error]. *)
Theorem login_accepted_run
    (origin : js_string) (u : option User.t)
    (upsert_reply : settled WriteResult.t) (s : Auth.t) :
  let r := Auth.handleAuth origin Auth.LOGIN
             (Fulfilled {| AuthResult.data_user := u;
                           AuthResult.error := None |})
             upsert_reply s in
  final r =
    {| Auth.email := Auth.email s; Auth.password := Auth.password s;
       Auth.loading := false; Auth.error := None; Auth.message := None |} /\
  filter is_console_error (output r) =
    match u, upsert_reply with
    | Some _, Rejected e =>
        [Console_error (lit "Profile update failed:") (Some e)]
    | _, _ => []
    end.
Proof.
  destruct u, upsert_reply; split; reflexivity.
Qed.

(** X5: [handleAuth] run in one go is its three stretches run one after the
    other: same final state, same effects in the same order. *)
Theorem handleAuth_is_its_stretches
    (origin : js_string) (type : Auth.auth_type)
    (auth_reply : settled AuthResult.t)
    (upsert_reply : settled WriteResult.t) (s : Auth.t) :
  Auth.handleAuth origin type auth_reply upsert_reply s =
  AuthForm.handleAuth_stretches origin type auth_reply upsert_reply s.
Proof.
  destruct auth_reply as [[u [e|]]|e].
  - destruct type; run_form;
      destruct (JsString.includes Auth.rls_marker (JsError.message e));
      reflexivity.
  - destruct type, u, upsert_reply; reflexivity.
  - destruct type; run_form;
      destruct (JsString.includes Auth.rls_marker (JsError.message e));
      reflexivity.
Qed.

Lemma take_auth_length l type email rest :
  AuthForm.take_auth l = Some (type, email, rest) ->
  List.length l = S (List.length rest).
Proof.
  revert rest. induction l as [|x l IH]; simpl; intros rest H; [discriminate|].
  destruct x as [t e|t].
  - injection H as _ _ <-. reflexivity.
  - destruct (AuthForm.take_auth l) as [[[t' e'] r']|]; [|discriminate].
    injection H as <- <- <-. simpl. f_equal. now apply IH.
Qed.

Lemma take_upsert_length l type rest :
  AuthForm.take_upsert l = Some (type, rest) ->
  List.length l = S (List.length rest).
Proof.
  revert rest. induction l as [|x l IH]; simpl; intros rest H; [discriminate|].
  destruct x as [t e|t].
  - destruct (AuthForm.take_upsert l) as [[t' r']|]; [|discriminate].
    injection H as <- <-. simpl. f_equal. now apply IH.
  - injection H as _ <-. reflexivity.
Qed.

(** The middle stretch either stops at the upsert with [loading] as it
    was, or ends with [loading] off. *)
Lemma authSettled_loading type email reply s :
  let r := AuthForm.handleAuth_authSettled type email reply s in
  match outcome r with
  | Normal AuthForm.Suspended => Auth.loading (final r) = Auth.loading s
  | Normal AuthForm.Finished => Auth.loading (final r) = false
  | Throw _ => False
  end.
Proof.
  destruct reply as [[u [e|]]|e].
  - run_form.
    destruct (JsString.includes Auth.rls_marker (JsError.message e));
      reflexivity.
  - destruct type, u; reflexivity.
  - run_form.
    destruct (JsString.includes Auth.rls_marker (JsError.message e));
      reflexivity.
Qed.

Lemma upsertSettled_loading type reply s :
  let r := AuthForm.handleAuth_upsertSettled type reply s in
  outcome r = Normal AuthForm.Finished /\ Auth.loading (final r) = false.
Proof. destruct type, reply; split; reflexivity. Qed.

Lemma form_step_keeps_loading_counts origin e a a' :
  AuthForm.step origin e a = Some a' -> loading_counts a -> loading_counts a'.
Proof.
  unfold loading_counts. destruct a as [s waiting].
  destruct e; cbn [AuthForm.step AuthForm.state AuthForm.pending]; intros H I.
  - destruct (Auth.loading s) eqn:L; [discriminate|]. injection H as <-.
    cbn. now rewrite L.
  - destruct (Auth.loading s) eqn:L; [discriminate|]. injection H as <-.
    cbn. now rewrite L.
  - destruct (Auth.loading s) eqn:L; [discriminate|]. injection H as <-.
    cbn [AuthForm.state AuthForm.pending]. rewrite length_app, I.
    destruct type; reflexivity.
  - destruct (AuthForm.take_auth waiting) as [[[t em] rest]|] eqn:T;
      [|discriminate].
    injection H as <-. apply take_auth_length in T.
    assert (L : Auth.loading s = true /\ rest = []).
    { destruct (Auth.loading s); [|lia]. split; [reflexivity|].
      destruct rest; [reflexivity|simpl in T; lia]. }
    destruct L as [L ->].
    pose proof (authSettled_loading t em reply s) as A. cbv zeta in A.
    unfold AuthForm.resume. cbn [AuthForm.state AuthForm.pending].
    destruct (outcome (AuthForm.handleAuth_authSettled t em reply s))
      as [[|]|]; [| |contradiction]; rewrite A; [|rewrite L]; reflexivity.
  - destruct (AuthForm.take_upsert waiting) as [[t rest]|] eqn:T;
      [|discriminate].
    injection H as <-. apply take_upsert_length in T.
    assert (R : rest = []).
    { destruct (Auth.loading s); [|lia].
      destruct rest; [reflexivity|simpl in T; lia]. }
    subst rest.
    destruct (upsertSettled_loading t reply s) as [O F].
    unfold AuthForm.resume. cbn [AuthForm.state AuthForm.pending].
    rewrite O, F. reflexivity.
Qed.

Lemma form_run_keeps_loading_counts origin es : forall a a',
  AuthForm.run origin es a = Some a' -> loading_counts a -> loading_counts a'.
Proof.
  induction es as [|e es IH]; simpl; intros a a' H I.
  - now injection H as <-.
  - destruct (AuthForm.step origin e a) as [a1|] eqn:S1; [|discriminate].
    eapply IH; eauto using form_step_keeps_loading_counts.
Qed.

(** X6: Through the form, at most one run of [handleAuth] is under way: after
    any sequence of typing, clicks and settlements the number of runs
    that wait for a reply is 1 when [loading] is set and 0 when it is
    not, and while [loading] is set neither button starts another run
    and neither input takes a change. *)
Theorem one_auth_run_in_flight
    (origin : js_string) (es : list AuthForm.event) (a : AuthForm.form) :
  AuthForm.run origin es AuthForm.initial = Some a ->
  List.length (AuthForm.pending a)
  = (if Auth.loading (AuthForm.state a) then 1 else 0) /\
  List.length (AuthForm.pending a) <= 1 /\
  (Auth.loading (AuthForm.state a) = true ->
   forall type value,
     AuthForm.step origin (AuthForm.Click type) a = None /\
     AuthForm.step origin (AuthForm.Email value) a = None /\
     AuthForm.step origin (AuthForm.Password value) a = None).
Proof.
  intros H.
  assert (I : loading_counts a).
  { eapply form_run_keeps_loading_counts; eauto. reflexivity. }
  split; [exact I|]. split.
  - rewrite I. destruct (Auth.loading (AuthForm.state a)); lia.
  - intros L type value. unfold AuthForm.step. rewrite L. repeat split.
Qed.

Lemma one_auth_run_in_flight_witness :
  AuthForm.run (lit "https://chirp.example") typing AuthForm.initial
  = Some signup_waiting /\
  List.length (AuthForm.pending signup_waiting) <= 1.
Proof.
  split.
  - reflexivity.
  - exact (proj1 (proj2 (one_auth_run_in_flight (lit "https://chirp.example")
                           typing signup_waiting eq_refl))).
Defined.

(** ** More on the feed view *)

Lemma blank_is_trim_falsy s :
  JsString.blank s = negb (JsString.truthy (JsString.trim s)).
Proof.
  destruct (JsString.blank s) eqn:B.
  - apply trim_falsy_iff_blank in B. now rewrite B.
  - destruct (JsString.truthy (JsString.trim s)) eqn:T; [reflexivity|].
    apply trim_falsy_iff_blank in T. congruence.
Qed.

(** X8: The derived username is never empty: it is what stands before the
    first [@] of the email when that is not empty, and [user_] with the
    first eight units of the id otherwise, also when there is no email. *)
Theorem derived_username_never_empty (email : option js_string) (id : js_string) :
  let name := derived_username email id in
  JsString.truthy name = true /\
  match email with
  | Some e =>
      if JsString.truthy (JsString.split_head JsString.at_sign e)
      then name = JsString.split_head JsString.at_sign e /\
           ~ In JsString.at_sign name
      else name = lit "user_" ++ firstn 8 id
  | None => name = lit "user_" ++ firstn 8 id
  end.
Proof.
  assert (NoAt : forall e, ~ In JsString.at_sign
                             (JsString.split_head JsString.at_sign e)).
  { induction e as [|c r IH]; simpl; [tauto|].
    destruct (N.eqb_spec c JsString.at_sign); simpl; [tauto|].
    intros [E|I]; [congruence|contradiction]. }
  unfold derived_username, JsString.or_else, JsString.slice0.
  destruct email as [e|]; cbv zeta.
  - destruct (JsString.truthy (JsString.split_head JsString.at_sign e)) eqn:T.
    + split; [exact T|]. split; [reflexivity|apply NoAt].
    + split; reflexivity.
  - split; reflexivity.
Qed.

(** X9: [handleSubmitPost] sends an insert exactly when the draft is not
    blank and the user has an id: then one insert, with the draft as
    typed (not trimmed) under that id, the busy flag goes up and the
    error text is cleared; otherwise the state is left as it was. *)
Theorem submit_sends_iff_draft_and_user (s : PostFeed.t) :
  let r := PostFeed.handleSubmitPost_call s in
  match PostFeed.user s with
  | Some u =>
      if JsString.blank (PostFeed.newPostContent s)
         || negb (JsString.truthy (User.id u))
      then final r = s /\ output r = [PreventDefault]
      else
        output r = [PreventDefault;
                    Call (InsertPost (PostFeed.newPostContent s) (User.id u) true)]
        /\ final r =
           {| PostFeed.posts := PostFeed.posts s; PostFeed.user := Some u;
              PostFeed.newPostContent := PostFeed.newPostContent s;
              PostFeed.isPosting := true;
              PostFeed.loading := PostFeed.loading s;
              PostFeed.error := None |}
  | None => final r = s /\ output r = [PreventDefault]
  end.
Proof.
  destruct s as [rows [u|] draft posting ld er];
    cbn [PostFeed.user PostFeed.newPostContent]; run_js;
    cbn [PostFeed.user_id_truthy].
  - rewrite blank_is_trim_falsy.
    destruct (negb (JsString.truthy (JsString.trim draft))
              || negb (JsString.truthy (User.id u))); split; reflexivity.
  - rewrite orb_true_r. split; reflexivity.
Qed.

Lemma fetchPosts_settled_total
    (reply : settled SelectResult.t) (s : PostFeed.t) :
  let r := PostFeed.fetchPosts_settled reply s in
  outcome r = Normal tt /\
  PostFeed.loading (final r) = false /\
  PostFeed.user (final r) = PostFeed.user s /\
  PostFeed.newPostContent (final r) = PostFeed.newPostContent s /\
  PostFeed.isPosting (final r) = PostFeed.isPosting s /\
  match reply with
  | Fulfilled {| SelectResult.data := Data.Array rows;
                 SelectResult.error := None |} =>
      PostFeed.posts (final r) = rows /\
      PostFeed.error (final r) = PostFeed.error s
  | _ =>
      PostFeed.posts (final r) = PostFeed.posts s /\
      PostFeed.error (final r) = Some PostFeed.reload_prompt
  end.
Proof.
  destruct reply as [[data [e|]]|e]; [| |repeat split].
  - destruct data; repeat split.
  - destruct data; try (repeat split; fail).
    + destruct b; repeat split.
    + cbv zeta. run_js. cbn [Data.truthy Data.isArray].
      rewrite andb_false_r. repeat split.
    + cbv zeta. run_js. cbn [Data.truthy Data.isArray].
      rewrite andb_false_r. repeat split.
Qed.

(** X11: [fetchPosts] never rejects: whatever the select settles with, it
    ends normally with [loading] off.  A reply with an array and no
    error replaces the list and keeps the error text; any other reply
    keeps the list and sets the reload prompt.  [user], the draft and the
    busy flag stay. *)
Theorem fetchPosts_never_rejects
    (reply : settled SelectResult.t) (s : PostFeed.t) :
  let r := PostFeed.fetchPosts_settled reply s in
  outcome r = Normal tt /\
  PostFeed.loading (final r) = false /\
  PostFeed.user (final r) = PostFeed.user s /\
  PostFeed.newPostContent (final r) = PostFeed.newPostContent s /\
  PostFeed.isPosting (final r) = PostFeed.isPosting s /\
  match reply with
  | Fulfilled {| SelectResult.data := Data.Array rows;
                 SelectResult.error := None |} =>
      PostFeed.posts (final r) = rows /\
      PostFeed.error (final r) = PostFeed.error s
  | _ =>
      PostFeed.posts (final r) = PostFeed.posts s /\
      PostFeed.error (final r) = Some PostFeed.reload_prompt
  end.
Proof.
  destruct reply as [[data [e|]]|e]; [| |repeat split].
  - destruct data; repeat split.
  - destruct data; try (repeat split; fail).
    + destruct b; repeat split.
    + cbv zeta. run_js. cbn [Data.truthy Data.isArray].
      rewrite andb_false_r. repeat split.
    + cbv zeta. run_js. cbn [Data.truthy Data.isArray].
      rewrite andb_false_r. repeat split.
Qed.

(** X12: [initializeUser] after [getUser]: the user is stored exactly when the
    reply has a user and no error, and exactly then one profile upsert
    is sent, keyed on [id], under the user's id, with a null avatar;
    otherwise the refusal is logged.  A rejected [getUser] escapes the
    function.  Nothing but [user] is written. *)
Theorem initializeUser_stores_user_and_upserts
    (reply : settled GetUserResult.t) (s : PostFeed.t) :
  let r := PostFeed.initializeUser_gotUser reply s in
  (PostFeed.posts (final r) = PostFeed.posts s /\
   PostFeed.newPostContent (final r) = PostFeed.newPostContent s /\
   PostFeed.isPosting (final r) = PostFeed.isPosting s /\
   PostFeed.loading (final r) = PostFeed.loading s /\
   PostFeed.error (final r) = PostFeed.error s) /\
  match reply with
  | Fulfilled {| GetUserResult.user := Some u; GetUserResult.error := None |} =>
      PostFeed.user (final r) = Some u /\
      output r =
        [Call (UpsertProfile
                 {| Profile.id := User.id u;
                    Profile.username :=
                      derived_username (User.email u) (User.id u);
                    Profile.avatar_url := Some None |}
                 (lit "id"))]
  | Fulfilled {| GetUserResult.user := _; GetUserResult.error := e |} =>
      PostFeed.user (final r) = PostFeed.user s /\
      output r = [Console_error (lit "User not authenticated:") e]
  | Rejected e =>
      PostFeed.user (final r) = PostFeed.user s /\
      output r = [] /\ outcome r = Throw e
  end.
Proof.
  destruct reply as [[[u|] [e|]]|e]; repeat split.
Qed.

(** X13: The profile upsert of [initializeUser] never touches the state and
    never throws; a failure, whether the promise rejects or resolves
    with an error in it, is logged once, a success not at all. *)
Theorem initializeUser_upsert_logged_only
    (reply : settled WriteResult.t) (s : PostFeed.t) :
  let r := PostFeed.initializeUser_upserted reply s in
  final r = s /\
  outcome r = Normal tt /\
  output r =
    match write_error reply with
    | Some e => [Console_error (lit "Profile initialization error:") (Some e)]
    | None => []
    end.
Proof.
  destruct reply as [[[e|]]|e]; repeat split.
Qed.

(** X14: The sample button: with a user, the click sends one insert of the
    canned text under the user's id and changes nothing (no busy flag).
    Once that insert resolves, with or without an error in the reply,
    [fetchPosts] is called; only a rejected promise shows "Failed to
    create sample post", and then nothing is fetched. *)
Theorem sample_post_flow
    (reply : settled WriteResult.t) (s : PostFeed.t) :
  let clicked := PostFeed.sample_click s in
  let inserted := PostFeed.sample_inserted reply s in
  match PostFeed.user s with
  | Some u =>
      final clicked = s /\
      output clicked =
        [Call (InsertPost PostFeed.sample_content (User.id u) false)]
  | None =>
      PostFeed.error (final clicked) = Some PostFeed.sample_failed /\
      output clicked = []
  end /\
  match reply with
  | Fulfilled _ => inserted = PostFeed.fetchPosts_call s
  | Rejected _ =>
      output inserted = [] /\
      PostFeed.error (final inserted) = Some PostFeed.sample_failed /\
      PostFeed.posts (final inserted) = PostFeed.posts s /\
      PostFeed.loading (final inserted) = PostFeed.loading s
  end.
Proof.
  destruct s as [rows [u|] draft posting ld er], reply; repeat split.
Qed.

(** *** Notifications, one after the other *)

Lemma notified_deletion old new s :
  notified (deletion old new) s =
  {| PostFeed.posts :=
       filter (fun p => negb (Key.strict_eq (Post.id p) (Post.id old)))
         (PostFeed.posts s);
     PostFeed.user := PostFeed.user s;
     PostFeed.newPostContent := PostFeed.newPostContent s;
     PostFeed.isPosting := PostFeed.isPosting s;
     PostFeed.loading := PostFeed.loading s;
     PostFeed.error := PostFeed.error s |}.
Proof. reflexivity. Qed.

Lemma notified_update new old s :
  notified (update new old) s =
  {| PostFeed.posts :=
       map (fun p => if Key.strict_eq (Post.id p) (Post.id new)
                     then new else p) (PostFeed.posts s);
     PostFeed.user := PostFeed.user s;
     PostFeed.newPostContent := PostFeed.newPostContent s;
     PostFeed.isPosting := PostFeed.isPosting s;
     PostFeed.loading := PostFeed.loading s;
     PostFeed.error := PostFeed.error s |}.
Proof. reflexivity. Qed.

Lemma notified_insertion new old s :
  notified (insertion new old) s =
  {| PostFeed.posts := new :: PostFeed.posts s;
     PostFeed.user := PostFeed.user s;
     PostFeed.newPostContent := PostFeed.newPostContent s;
     PostFeed.isPosting := PostFeed.isPosting s;
     PostFeed.loading := PostFeed.loading s;
     PostFeed.error := PostFeed.error s |}.
Proof. reflexivity. Qed.

Lemma filter_twice {A} (f : A -> bool) l : filter f (filter f l) = filter f l.
Proof.
  induction l as [|x l IH]; simpl; auto.
  destruct (f x) eqn:E; simpl; rewrite ?E, IH; reflexivity.
Qed.

Lemma replace_twice new rows :
  let f := fun p => if Key.strict_eq (Post.id p) (Post.id new) then new else p in
  map f (map f rows) = map f rows.
Proof.
  intros f. rewrite map_map. apply map_ext. intros p. unfold f.
  destruct (Key.strict_eq (Post.id p) (Post.id new)) eqn:E.
  - now rewrite strict_eq_refl.
  - now rewrite E.
Qed.

Lemma replace_absent new rows :
  (forall p, In p rows -> Key.strict_eq (Post.id p) (Post.id new) = false) ->
  map (fun p => if Key.strict_eq (Post.id p) (Post.id new) then new else p) rows
  = rows.
Proof.
  intros H. induction rows as [|p rows IH]; simpl; auto.
  rewrite (H p (or_introl eq_refl)). f_equal. apply IH.
  intros q Hq. apply H. now right.
Qed.

(** X16: A DELETE or an UPDATE delivered twice does what it does once: the
    second delivery leaves the whole state as the first left it. *)
Theorem delete_and_update_are_idempotent
    (row other : Post.t) (s : PostFeed.t) :
  notified (deletion row other) (notified (deletion row other) s)
  = notified (deletion row other) s /\
  notified (update row other) (notified (update row other) s)
  = notified (update row other) s.
Proof.
  rewrite !notified_deletion, !notified_update.
  cbn [PostFeed.posts PostFeed.user PostFeed.newPostContent
       PostFeed.isPosting PostFeed.loading PostFeed.error].
  split; f_equal.
  - apply filter_twice.
  - apply (replace_twice row).
Qed.

(** X17: A DELETE undoes an INSERT of the same id, and takes every older row
    with that id along; an UPDATE for an id that was deleted changes
    nothing, it does not bring the row back. *)
Theorem delete_wins (new old a b c : Post.t) (s : PostFeed.t) :
  Post.id old = Post.id new ->
  notified (deletion old a) (notified (insertion new b) s)
  = notified (deletion old a) s /\
  notified (update new c) (notified (deletion old a) s)
  = notified (deletion old a) s.
Proof.
  intros E.
  rewrite !notified_deletion, !notified_update, !notified_insertion.
  cbn [PostFeed.posts PostFeed.user PostFeed.newPostContent
       PostFeed.isPosting PostFeed.loading PostFeed.error].
  split; f_equal.
  - simpl. now rewrite E, strict_eq_refl.
  - apply replace_absent. intros p Hp. apply filter_In in Hp as [_ Hp].
    rewrite <- E. now apply negb_true_iff.
Qed.

Lemma delete_wins_witness :
  Post.id (post 1 "first" 100) = Post.id (post 1 "edited" 100) /\
  notified (update (post 1 "edited" 100) (post 1 "first" 100))
    (notified (deletion (post 1 "first" 100) (post 1 "first" 100))
       (notified (insertion (post 1 "first" 100) (post 1 "first" 100)) busy))
  = notified (deletion (post 1 "first" 100) (post 1 "first" 100))
      (notified (insertion (post 1 "first" 100) (post 1 "first" 100)) busy).
Proof.
  split.
  - reflexivity.
  - exact (proj2 (delete_wins (post 1 "edited" 100) (post 1 "first" 100)
                    (post 1 "first" 100) (post 1 "first" 100)
                    (post 1 "first" 100)
                    (notified (insertion (post 1 "first" 100)
                                 (post 1 "first" 100)) busy)
                    eq_refl)).
Defined.

(** X18: The row a submission gets back and the INSERT notification for the
    same row both go to the head of the list, in whichever order they
    arrive: the post is then in the list twice, until a DELETE for its id
    or a successful [fetchPosts] replaces the list. *)
Theorem submission_and_echo_duplicate
    (row old : Post.t) (s : PostFeed.t) :
  let confirm := PostFeed.handleSubmitPost_settled
                   (Fulfilled (SingleResult.Row row)) in
  PostFeed.posts (notified (insertion row old) (final (confirm s)))
  = row :: row :: PostFeed.posts s /\
  PostFeed.posts (final (confirm (notified (insertion row old) s)))
  = row :: row :: PostFeed.posts s /\
  count_id (Post.id row)
    (PostFeed.posts (notified (insertion row old) (final (confirm s))))
  = 2 + count_id (Post.id row) (PostFeed.posts s) /\
  count_id (Post.id row)
    (PostFeed.posts
       (notified (deletion row old)
          (notified (insertion row old) (final (confirm s))))) = 0.
Proof.
  cbv zeta. split; [reflexivity|]. split; [reflexivity|]. split.
  - unfold count_id. cbn. rewrite strict_eq_refl. reflexivity.
  - rewrite notified_deletion. cbn [PostFeed.posts]. apply count_id_removed.
Qed.

(** X19: A notification of any type never throws and never touches [user],
    the draft or the busy flag, and sends neither an insert nor an
    upsert; of the three known types it also leaves [loading] and
    [error] and sends nothing at all. *)
Theorem notification_frame (payload : Payload.t) (s : PostFeed.t) :
  let r := PostFeed.on_postgres_changes payload s in
  outcome r = Normal tt /\
  PostFeed.user (final r) = PostFeed.user s /\
  PostFeed.newPostContent (final r) = PostFeed.newPostContent s /\
  PostFeed.isPosting (final r) = PostFeed.isPosting s /\
  filter is_insert (output r) = [] /\
  filter is_upsert (output r) = [] /\
  (refetches (output r) = false ->
   PostFeed.loading (final r) = PostFeed.loading s /\
   PostFeed.error (final r) = PostFeed.error s /\
   filter is_call (output r) = []).
Proof.
  cbv zeta. unfold PostFeed.on_postgres_changes.
  destruct (JsString.eqb (Payload.eventType payload) PostFeed.INSERT);
    [repeat split|].
  destruct (JsString.eqb (Payload.eventType payload) PostFeed.DELETE);
    [repeat split|].
  destruct (JsString.eqb (Payload.eventType payload) PostFeed.UPDATE);
    [repeat split|].
  repeat split; discriminate.
Qed.

(** *** The mounted feed over time *)

Lemma bystander_setNewPostContent value :
  bystander (PostFeed.setNewPostContent value).
Proof. intros s. repeat split. intros H. now left. Qed.

Lemma bystander_handleSubmitPost_call : bystander PostFeed.handleSubmitPost_call.
Proof.
  intros [rows u draft posting ld er]. unfold count. run_js.
  destruct (negb (JsString.truthy (JsString.trim draft))
            || negb (PostFeed.user_id_truthy u));
    repeat split; intros H; now left.
Qed.

Lemma bystander_sample_click : bystander PostFeed.sample_click.
Proof.
  intros [rows [u|] draft posting ld er]; repeat split; intros H; now left.
Qed.

Lemma bystander_fetchPosts_call : bystander PostFeed.fetchPosts_call.
Proof. intros s. repeat split. intros _. right. cbv. lia. Qed.

Lemma bystander_on_postgres_changes payload :
  bystander (PostFeed.on_postgres_changes payload).
Proof.
  intros s. unfold PostFeed.on_postgres_changes.
  destruct (JsString.eqb (Payload.eventType payload) PostFeed.INSERT);
    [repeat split; intros H; now left|].
  destruct (JsString.eqb (Payload.eventType payload) PostFeed.DELETE);
    [repeat split; intros H; now left|].
  destruct (JsString.eqb (Payload.eventType payload) PostFeed.UPDATE);
    [repeat split; intros H; now left|].
  repeat split. intros _. right. cbv. lia.
Qed.

Lemma bystander_handleSubmitPost_settled reply :
  bystander (PostFeed.handleSubmitPost_settled reply).
Proof.
  intros s. destruct reply as [[row|e]|e]; repeat split; intros H; now left.
Qed.

Lemma bystander_fetchPosts_settled reply :
  bystander (PostFeed.fetchPosts_settled reply).
Proof.
  intros s.
  destruct (fetchPosts_settled_total reply s) as [_ [L [U _]]].
  split; [exact U|]. split; [|split].
  - destruct reply as [[data [e|]]|e]; try reflexivity.
    unfold count. run_js.
    destruct (Data.truthy data && Data.isArray data); reflexivity.
  - destruct reply as [[data [e|]]|e]; try reflexivity.
    unfold count. run_js.
    destruct (Data.truthy data && Data.isArray data); reflexivity.
  - intros H. congruence.
Qed.

Lemma bystander_sample_inserted reply :
  bystander (PostFeed.sample_inserted reply).
Proof.
  intros s. destruct reply; repeat split.
  - intros _. right. cbv. lia.
  - intros H. now left.
Qed.

Lemma bystander_initializeUser_upserted reply :
  bystander (PostFeed.initializeUser_upserted reply).
Proof.
  intros s. destruct reply as [[[e|]]|e]; repeat split; intros H; now left.
Qed.

Lemma step_fired e a a' :
  PostFeed.step e a = Some a' ->
  exists m rest, a' = PostFeed.dispatch m (PostFeed.state a) rest /\
                 fired a m rest.
Proof.
  destruct e; cbn [PostFeed.step]; intros H.
  - destruct (_ && _); [|discriminate]. injection H as <-.
    eexists _, _. split; [reflexivity|].
    apply fired_by_user; auto using bystander_setNewPostContent.
  - destruct (_ && _); [|discriminate]. injection H as <-.
    eexists _, _. split; [reflexivity|].
    apply fired_by_user; auto using bystander_handleSubmitPost_call.
  - destruct (PostFeed.sample_shown _); [|discriminate]. injection H as <-.
    eexists _, _. split; [reflexivity|].
    apply fired_by_user; auto using bystander_sample_click.
  - destruct (PostFeed.user_id_truthy _); [|discriminate]. injection H as <-.
    eexists _, _. split; [reflexivity|].
    apply fired_by_user; auto using bystander_on_postgres_changes.
  - unfold PostFeed.settle in H.
    destruct (PostFeed.take_out _ _) as [rest|] eqn:T; [|discriminate].
    injection H as <-. eexists _, _. split; [reflexivity|].
    eapply fired_by_settlement;
      [exact T | reflexivity | reflexivity
      | apply bystander_handleSubmitPost_settled].
  - unfold PostFeed.settle in H.
    destruct (PostFeed.take_out _ _) as [rest|] eqn:T; [|discriminate].
    injection H as <-. eexists _, _. split; [reflexivity|].
    apply fired_by_select;
      [exact T | apply bystander_fetchPosts_settled|].
    intros s. apply (fetchPosts_settled_total reply s).
  - unfold PostFeed.settle in H.
    destruct (PostFeed.take_out _ _) as [rest|] eqn:T; [|discriminate].
    injection H as <-. eexists _, _. split; [reflexivity|].
    eapply fired_by_settlement;
      [exact T | reflexivity | reflexivity
      | apply bystander_sample_inserted].
  - unfold PostFeed.settle in H.
    destruct (PostFeed.take_out _ _) as [rest|] eqn:T; [|discriminate].
    injection H as <-. eexists _, _. split; [reflexivity|].
    eapply fired_by_getUser; [exact T | reflexivity].
  - unfold PostFeed.settle in H.
    destruct (PostFeed.take_out _ _) as [rest|] eqn:T; [|discriminate].
    injection H as <-. eexists _, _. split; [reflexivity|].
    eapply fired_by_settlement;
      [exact T | reflexivity | reflexivity
      | apply bystander_initializeUser_upserted].
Qed.

Lemma take_out_le p q l rest :
  PostFeed.take_out p l = Some rest ->
  List.length (filter (PostFeed.promise_eqb q) rest)
  <= List.length (filter (PostFeed.promise_eqb q) l).
Proof.
  intros T. destruct (PostFeed.promise_eqb q p) eqn:E.
  - assert (q = p) by (destruct q, p; simpl in E; congruence). subst q.
    rewrite (take_out_same _ _ _ T). lia.
  - rewrite (take_out_other _ _ _ _ T E). lia.
Qed.

(** What the stretch after [getUser] does to the promises and flags. *)
Lemma gotUser_footprint reply s :
  let r := PostFeed.initializeUser_gotUser reply s in
  PostFeed.loading (final r) = PostFeed.loading s /\
  count PostFeed.UserLookup (output r) = 0 /\
  count PostFeed.Select (output r) = 0 /\
  count PostFeed.Upsert (output r) <= 1.
Proof.
  destruct reply as [[[u|] [e|]]|e]; cbv zeta; unfold count; cbn;
    repeat split; lia.
Qed.

Lemma step_keeps_spinner_waits e a a' :
  PostFeed.step e a = Some a' -> spinner_waits a -> spinner_waits a'.
Proof.
  intros H I. destruct (step_fired e a a' H) as [m [rest [-> F]]].
  unfold spinner_waits in *. rewrite in_flight_dispatch.
  unfold PostFeed.dispatch, PostFeed.in_flight in *.
  cbn [PostFeed.state PostFeed.pending] in *.
  fold (count PostFeed.Select (output (m (PostFeed.state a)))).
  destruct F as [-> B | p T _ N B | T B L | reply T ->].
  - intros Ld. destruct (B (PostFeed.state a)) as [_ [_ [_ W]]].
    destruct (W Ld) as [Ls|C]; [specialize (I Ls)|]; lia.
  - rewrite <- (take_out_other _ _ _ _ T N).
    intros Ld. destruct (B (PostFeed.state a)) as [_ [_ [_ W]]].
    destruct (W Ld) as [Ls|C]; [specialize (I Ls)|]; lia.
  - rewrite L. discriminate.
  - rewrite <- (take_out_other _ PostFeed.Select _ _ T eq_refl).
    destruct (gotUser_footprint reply (PostFeed.state a)) as [Ld [_ [C _]]].
    rewrite Ld. intros Ls. specialize (I Ls). lia.
Qed.

Lemma step_keeps_one_identity e a a' :
  PostFeed.step e a = Some a' -> one_identity a -> one_identity a'.
Proof.
  intros H [I1 I2]. destruct (step_fired e a a' H) as [m [rest [-> F]]].
  unfold one_identity in *. rewrite !in_flight_dispatch.
  unfold PostFeed.dispatch, PostFeed.in_flight in *.
  cbn [PostFeed.state PostFeed.pending] in *.
  fold (count PostFeed.UserLookup (output (m (PostFeed.state a)))).
  fold (count PostFeed.Upsert (output (m (PostFeed.state a)))).
  destruct F as [-> B | p T N _ B | T B _ | reply T ->].
  - destruct (B (PostFeed.state a)) as [U [C1 [C2 _]]].
    rewrite U, C1, C2. split; [lia|]. intros X. specialize (I2 X). lia.
  - destruct (B (PostFeed.state a)) as [U [C1 [C2 _]]].
    rewrite U, C1, C2. rewrite <- (take_out_other _ _ _ _ T N).
    pose proof (take_out_le _ PostFeed.Upsert _ _ T).
    split; [lia|]. intros X. specialize (I2 X). lia.
  - destruct (B (PostFeed.state a)) as [U [C1 [C2 _]]].
    rewrite U, C1, C2.
    rewrite <- (take_out_other _ PostFeed.UserLookup _ _ T eq_refl).
    pose proof (take_out_le _ PostFeed.Upsert _ _ T).
    split; [lia|]. intros X. specialize (I2 X). lia.
  - destruct (gotUser_footprint reply (PostFeed.state a)) as [_ [C1 [_ C2]]].
    pose proof (take_out_same _ _ _ T).
    rewrite <- (take_out_other _ PostFeed.Upsert _ _ T eq_refl).
    split; [lia|]. intros _. lia.
Qed.

Lemma step_keeps_user e a a' u :
  PostFeed.step e a = Some a' -> one_identity a ->
  PostFeed.user (PostFeed.state a) = Some u ->
  PostFeed.user (PostFeed.state a') = Some u.
Proof.
  intros H [_ I2] U. destruct (step_fired e a a' H) as [m [rest [-> F]]].
  unfold PostFeed.dispatch. cbn [PostFeed.state].
  destruct F as [-> B | p T N _ B | T B _ | reply T ->];
    try (destruct (B (PostFeed.state a)) as [E _]; congruence).
  apply take_out_same in T. unfold PostFeed.in_flight in I2.
  rewrite T in I2. assert (X : PostFeed.user (PostFeed.state a) <> None)
    by congruence. specialize (I2 X). discriminate.
Qed.

Lemma run_keeps_feed_invariants es : forall a a',
  PostFeed.run es a = Some a' ->
  spinner_waits a /\ one_identity a -> spinner_waits a' /\ one_identity a'.
Proof.
  induction es as [|e es IH]; simpl; intros a a' H I.
  - now injection H as <-.
  - destruct (PostFeed.step e a) as [a1|] eqn:S1; [|discriminate].
    apply (IH a1 a' H). destruct I as [I1 I2]. split.
    + eapply step_keeps_spinner_waits; eauto.
    + eapply step_keeps_one_identity; eauto.
Qed.

Lemma mounted_feed_invariants :
  spinner_waits PostFeed.mounted /\ one_identity PostFeed.mounted.
Proof.
  split.
  - intros _. cbv. lia.
  - split; [cbv; lia|]. intros X. now contradiction X.
Qed.

(** X20: Whenever [loading] is set, and so whenever the spinner is drawn, a
    select is still in flight: the flag is never left on with nothing
    to wait for. *)
Theorem loading_means_select_in_flight
    (es : list PostFeed.event) (a : PostFeed.app) :
  PostFeed.run es PostFeed.mounted = Some a ->
  (PostFeed.loading (PostFeed.state a) = true ->
   1 <= PostFeed.in_flight PostFeed.Select a) /\
  (PostFeed.spinner (PostFeed.state a) = true ->
   1 <= PostFeed.in_flight PostFeed.Select a).
Proof.
  intros H.
  destruct (run_keeps_feed_invariants es _ _ H mounted_feed_invariants)
    as [I _].
  split; [exact I|]. intros S. apply I. unfold PostFeed.spinner in S.
  now apply andb_true_iff in S as [S _].
Qed.

Lemma loading_means_select_in_flight_witness :
  PostFeed.run ada_known PostFeed.mounted = Some ada_feed /\
  1 <= PostFeed.in_flight PostFeed.Select ada_feed.
Proof.
  split.
  - reflexivity.
  - exact (proj1 (loading_means_select_in_flight ada_known ada_feed eq_refl)
             eq_refl).
Defined.

(** X21: The mounted feed looks its user up once and writes the profile at
    most once: never more than one of the two is in flight, and once a
    user is stored no later event replaces or clears it. *)
Theorem feed_user_is_set_once
    (es es' : list PostFeed.event) (a a' : PostFeed.app) (u : User.t) :
  PostFeed.run es PostFeed.mounted = Some a ->
  PostFeed.run es' a = Some a' ->
  PostFeed.user (PostFeed.state a) = Some u ->
  PostFeed.user (PostFeed.state a') = Some u /\
  PostFeed.in_flight PostFeed.UserLookup a' = 0 /\
  PostFeed.in_flight PostFeed.Upsert a' <= 1.
Proof.
  intros H H' U.
  destruct (run_keeps_feed_invariants es _ _ H mounted_feed_invariants)
    as [I1 I2].
  clear H. revert a a' H' U I1 I2.
  induction es' as [|e es' IH]; simpl; intros a a' H' U I1 I2.
  - injection H' as <-. split; [exact U|]. destruct I2 as [A B].
    assert (X : PostFeed.user (PostFeed.state a) <> None) by congruence.
    specialize (B X). lia.
  - destruct (PostFeed.step e a) as [a1|] eqn:S1; [|discriminate].
    apply (IH a1 a' H').
    + eapply step_keeps_user; eauto.
    + eapply step_keeps_spinner_waits; eauto.
    + eapply step_keeps_one_identity; eauto.
Qed.

Lemma feed_user_is_set_once_witness :
  (PostFeed.run ada_known PostFeed.mounted = Some ada_feed /\
   PostFeed.run ada_later ada_feed = Some ada_posting /\
   PostFeed.user (PostFeed.state ada_feed) = Some ada) /\
  PostFeed.user (PostFeed.state ada_posting) = Some ada.
Proof.
  split.
  - repeat split.
  - exact (proj1 (feed_user_is_set_once ada_known ada_later ada_feed
                    ada_posting ada eq_refl eq_refl eq_refl)).
Defined.

Lemma sample_click_step a :
  PostFeed.sample_shown (PostFeed.state a) = true ->
  PostFeed.step PostFeed.SampleClick a =
  Some {| PostFeed.state := PostFeed.state a;
          PostFeed.pending := PostFeed.pending a ++ [PostFeed.SampleInsert] |}.
Proof.
  destruct a as [[rows [u|] draft posting ld er] waiting];
    cbn [PostFeed.step PostFeed.state PostFeed.pending]; intros S.
  - rewrite S. reflexivity.
  - unfold PostFeed.sample_shown, PostFeed.user_truthy in S.
    cbn [PostFeed.user] in S. rewrite andb_false_r in S. discriminate.
Qed.

(** X15: The sample button has no busy flag: wherever it is shown, two clicks
    in a row are both taken, leave the state as it was and two sample
    inserts in flight. *)
Theorem sample_button_is_not_gated (a : PostFeed.app) :
  PostFeed.sample_shown (PostFeed.state a) = true ->
  exists a',
    PostFeed.run [PostFeed.SampleClick; PostFeed.SampleClick] a = Some a' /\
    PostFeed.state a' = PostFeed.state a /\
    PostFeed.in_flight PostFeed.SampleInsert a'
    = 2 + PostFeed.in_flight PostFeed.SampleInsert a.
Proof.
  intros S. eexists. cbn [PostFeed.run].
  rewrite (sample_click_step a S).
  rewrite (sample_click_step
             {| PostFeed.state := PostFeed.state a;
                PostFeed.pending :=
                  PostFeed.pending a ++ [PostFeed.SampleInsert] |} S).
  split; [reflexivity|]. split; [reflexivity|].
  unfold PostFeed.in_flight. cbn [PostFeed.pending].
  rewrite !filter_app, !length_app. cbn. lia.
Qed.

Lemma sample_button_is_not_gated_witness :
  PostFeed.sample_shown (PostFeed.state empty_feed) = true /\
  exists a',
    PostFeed.run [PostFeed.SampleClick; PostFeed.SampleClick] empty_feed
    = Some a' /\
    PostFeed.state a' = PostFeed.state empty_feed /\
    PostFeed.in_flight PostFeed.SampleInsert a'
    = 2 + PostFeed.in_flight PostFeed.SampleInsert empty_feed.
Proof.
  split.
  - reflexivity.
  - exact (sample_button_is_not_gated empty_feed eq_refl).
Defined.

(** ** The session holder *)







(** ** Running [handleAuth] through the form *)

Lemma idle_form_has_nothing_pending a :
  loading_counts a -> Auth.loading (AuthForm.state a) = false ->
  AuthForm.pending a = [].
Proof.
  unfold loading_counts. intros I L. rewrite L in I.
  now destruct (AuthForm.pending a).
Qed.

(** X7: From an idle form, a click and the settlements of its requests end
    in the state [handleAuth] computes in one go, with nothing left
    pending: one settlement when the run stops after the auth reply, two
    when it goes on to the profile upsert. *)
Theorem form_click_is_handleAuth
    (origin : js_string) (es : list AuthForm.event) (a : AuthForm.form)
    (type : Auth.auth_type) (auth_reply : settled AuthResult.t)
    (upsert_reply : settled WriteResult.t) :
  AuthForm.run origin es AuthForm.initial = Some a ->
  Auth.loading (AuthForm.state a) = false ->
  exists a',
    (AuthForm.run origin
       [AuthForm.Click type; AuthForm.AuthSettled auth_reply] a = Some a' \/
     AuthForm.run origin
       [AuthForm.Click type; AuthForm.AuthSettled auth_reply;
        AuthForm.UpsertSettled upsert_reply] a = Some a') /\
    AuthForm.pending a' = [] /\
    AuthForm.state a' =
      final (Auth.handleAuth origin type auth_reply upsert_reply
               (AuthForm.state a)).
Proof.
  intros H L.
  assert (P : AuthForm.pending a = []).
  { apply idle_form_has_nothing_pending; [|exact L].
    eapply form_run_keeps_loading_counts; eauto. reflexivity. }
  destruct a as [[em pw ld er ms] waiting].
  cbn [AuthForm.state AuthForm.pending Auth.loading] in *. subst ld waiting.
  destruct auth_reply as [[u [e|]]|e].
  - eexists. split; [left; cbn; reflexivity|].
    unfold AuthForm.resume. destruct type; run_form;
      destruct (JsString.includes Auth.rls_marker (JsError.message e));
      split; reflexivity.
  - destruct type, u as [u|].
    + eexists. split; [right; cbn; reflexivity|].
      destruct upsert_reply; split; reflexivity.
    + eexists. split; [left; cbn; reflexivity|]. split; reflexivity.
    + eexists. split; [right; cbn; reflexivity|].
      destruct upsert_reply; split; reflexivity.
    + eexists. split; [left; cbn; reflexivity|].
      destruct upsert_reply; split; reflexivity.
  - eexists. split; [left; cbn; reflexivity|].
    unfold AuthForm.resume. destruct type; run_form;
      destruct (JsString.includes Auth.rls_marker (JsError.message e));
      split; reflexivity.
Qed.

Lemma form_click_is_handleAuth_witness :
  (AuthForm.run (lit "https://chirp.example") [] AuthForm.initial
   = Some AuthForm.initial /\
   Auth.loading (AuthForm.state AuthForm.initial) = false) /\
  exists a',
    (AuthForm.run (lit "https://chirp.example")
       [AuthForm.Click Auth.LOGIN; AuthForm.AuthSettled (Rejected rls_refusal)]
       AuthForm.initial = Some a' \/
     AuthForm.run (lit "https://chirp.example")
       [AuthForm.Click Auth.LOGIN; AuthForm.AuthSettled (Rejected rls_refusal);
        AuthForm.UpsertSettled upsert_refused]
       AuthForm.initial = Some a') /\
    AuthForm.pending a' = [] /\
    AuthForm.state a' =
      final (Auth.handleAuth (lit "https://chirp.example") Auth.LOGIN
               (Rejected rls_refusal) upsert_refused
               (AuthForm.state AuthForm.initial)).
Proof.
  split.
  - split; reflexivity.
  - exact (form_click_is_handleAuth (lit "https://chirp.example") []
             AuthForm.initial Auth.LOGIN (Rejected rls_refusal)
             upsert_refused eq_refl eq_refl).
Defined.

(** ** The submit button after a submission *)

(** X10: Once a submission has settled the busy flag is down.  A row that
    came back leaves the draft empty, so the submit button stays
    disabled until something is typed; a failure leaves the draft, so
    the button is enabled again exactly when that draft is not blank,
    and the error text it shows is never empty. *)
Theorem submit_button_after_settlement
    (reply : settled SingleResult.t) (s : PostFeed.t) :
  let s' := final (PostFeed.handleSubmitPost_settled reply s) in
  PostFeed.textarea_disabled s' = false /\
  match reply with
  | Fulfilled (SingleResult.Row _) => PostFeed.submit_disabled s' = true
  | Fulfilled (SingleResult.Failure e) | Rejected e =>
      PostFeed.submit_disabled s' = JsString.blank (PostFeed.newPostContent s) /\
      exists text, PostFeed.error s' = Some text /\ JsString.truthy text = true
  end.
Proof.
  destruct s as [rows u draft posting ld er].
  destruct reply as [[row|e]|e]; cbv zeta; (split; [reflexivity|]).
  - reflexivity.
  - split.
    + rewrite blank_is_trim_falsy. reflexivity.
    + eexists. split; [reflexivity|].
      unfold JsString.or_else.
      destruct (JsString.truthy (JsError.message e)) eqn:T;
        [exact T|reflexivity].
  - split.
    + rewrite blank_is_trim_falsy. reflexivity.
    + eexists. split; [reflexivity|].
      unfold JsString.or_else.
      destruct (JsString.truthy (JsError.message e)) eqn:T;
        [exact T|reflexivity].
Qed.

